(** * apt-cyg-clean: pruning of a Cygwin package cache

    A shallow embedding of [apt-cyg-clean.py] and the properties of its
    file name parser, its validators, its selection of the newest package
    and its per-directory pruning.

    Python 2 [str] values are byte strings: they are modelled by [string],
    whose characters are the 256 values of [ascii], and compared with
    [String.compare], the lexicographic order on unsigned bytes that
    Python 2 uses for [str]. *)

From Stdlib Require Import String Ascii List Bool Arith NArith Lia.
From Stdlib Require Import Permutation Sorted.
Import ListNotations.
Local Open Scope string_scope.

(** ** Python string primitives *)

Module PyStr.

(** [s.endswith(suf)]. *)
Definition endswith (s suf : string) : bool :=
  (String.length suf <=? String.length s)%nat &&
  (substring (String.length s - String.length suf) (String.length suf) s =? suf).

(** [s.startswith(pre)]. *)
Definition startswith (s pre : string) : bool := prefix pre s.

(** [s[:n]] for [0 <= n <= len(s)]. *)
Definition slice_to (n : nat) (s : string) : string := substring 0 n s.

(** [s.rpartition(sep)] for a separator of one character: the text before
    the last occurrence of [sep] and the text after it, or [None] when
    [sep] does not occur. *)
Fixpoint rpartition (sep : ascii) (s : string) : option (string * string) :=
  match s with
  | EmptyString => None
  | String c s' =>
      match rpartition sep s' with
      | Some (a, b) => Some (String c a, b)
      | None => if Ascii.eqb c sep then Some (EmptyString, s') else None
      end
  end.

(** [s.rsplit(sep, maxsplit)] for a separator of one character: at most
    [maxsplit] splits are done, the rightmost ones. *)
Fixpoint rsplit (sep : ascii) (maxsplit : nat) (s : string) : list string :=
  match maxsplit with
  | O => [s]
  | S n =>
      match rpartition sep s with
      | None => [s]
      | Some (a, b) => (rsplit sep n a ++ [b])%list
      end
  end.

(** [sep in s] for a character. *)
Fixpoint contains (sep : ascii) (s : string) : bool :=
  match s with
  | EmptyString => false
  | String c s' => Ascii.eqb c sep || contains sep s'
  end.

(** Every character of [s] satisfies [p]. *)
Fixpoint all_chars (p : ascii -> bool) (s : string) : bool :=
  match s with
  | EmptyString => true
  | String c s' => p c && all_chars p s'
  end.

End PyStr.

(** ** The fragment of [re] the validators use

    A pattern is a sequence of atoms.  [re.match] anchors the match at the
    start of the subject and accepts when a prefix matches.  Without
    [re.MULTILINE], [$] matches at the end of the subject and also just
    before a newline that is the last character of the subject.  On [str]
    patterns without [re.UNICODE] or [re.LOCALE], [\d] is [[0-9]]. *)

Module Re.

Inductive atom : Type :=
| Bol                               (* ^ *)
| Eol                               (* $ *)
| Cls (cls : ascii -> bool)         (* a character class, one character *)
| Star (cls : ascii -> bool).       (* a character class, starred *)

Definition newline : ascii := "010"%char.

Definition at_eol (s : string) : bool :=
  match s with
  | EmptyString => true
  | String c EmptyString => Ascii.eqb c newline
  | _ => false
  end.

(** [match_here pat start s]: the pattern matches a prefix of [s], where
    [start] tells whether [s] is the whole subject.  The star tries the
    longest run first and backs off. *)
Fixpoint match_here (pat : list atom) (start : bool) (s : string) : bool :=
  match pat with
  | [] => true
  | Bol :: pat' => start && match_here pat' start s
  | Eol :: pat' => at_eol s && match_here pat' start s
  | Cls cls :: pat' =>
      match s with
      | String c s' => cls c && match_here pat' false s'
      | EmptyString => false
      end
  | Star cls :: pat' =>
      (fix star (start : bool) (s : string) {struct s} : bool :=
         match s with
         | String c s' => (cls c && star false s') || match_here pat' start s
         | EmptyString => match_here pat' start s
         end) start s
  end.

(** The truth value of [re.match(pat, s)]. *)
Definition re_match (pat : list atom) (s : string) : bool :=
  match_here pat true s.

Definition in_range (lo hi c : ascii) : bool :=
  (lo <=? c)%char && (c <=? hi)%char.

(** [\d] and [0-9] *)
Definition digit (c : ascii) : bool := in_range "0" "9" c.
(** [1-9] *)
Definition nonzero_digit (c : ascii) : bool := in_range "1" "9" c.
(** [[0-9\.]] *)
Definition digit_or_dot (c : ascii) : bool := digit c || Ascii.eqb c ".".

End Re.

(** ** The package identity *)

(** [CygPackage = namedtuple("CygPackage", ['package', 'version', 'release'])].
    [INVALID_PACKAGE] is the one object the source tests with [is]; every
    other value is built by [CygPackage( *pack)] from three strings and is
    never identical to it, so the sentinel is a constructor of its own. *)
Inductive CygPackage : Type :=
| INVALID_PACKAGE
| MkCygPackage (package version release : string).

(** Field access.  The fields of the sentinel are [None]; [prune] reads the
    fields of parsed identities only, and the theorems below that read a
    field assume or establish [is_valid]. *)
Definition package (p : CygPackage) : string :=
  match p with MkCygPackage n _ _ => n | INVALID_PACKAGE => "" end.
Definition version (p : CygPackage) : string :=
  match p with MkCygPackage _ v _ => v | INVALID_PACKAGE => "" end.
Definition release (p : CygPackage) : string :=
  match p with MkCygPackage _ _ r => r | INVALID_PACKAGE => "" end.

Definition is_valid (p : CygPackage) : bool :=
  match p with MkCygPackage _ _ _ => true | INVALID_PACKAGE => false end.

Definition CygPackage_eq_dec (p q : CygPackage) : {p = q} + {p <> q}.
Proof. decide equality; apply string_dec. Defined.

Definition SUFFIX : string := ".tar.bz2".

(** ** Validators and parser *)

(** [re.match(r'^\d[0-9\.]*$', ver)] *)
Definition chkversion (ver : string) : bool :=
  Re.re_match [Re.Bol; Re.Cls Re.digit; Re.Star Re.digit_or_dot; Re.Eol] ver.

(** [re.match(r'^[1-9]\d*$', rel)] *)
Definition chkrelease (rel : string) : bool :=
  Re.re_match [Re.Bol; Re.Cls Re.nonzero_digit; Re.Star Re.digit; Re.Eol] rel.

Definition chkpackage (parts : list string) : bool :=
  (List.length parts =? 3)%nat &&
  chkversion (nth 1 parts "") && chkrelease (nth 2 parts "").

Definition cygpackage (s : string) : CygPackage :=
  if negb (PyStr.endswith s SUFFIX) then INVALID_PACKAGE
  else
    let p := PyStr.slice_to (String.length s - String.length SUFFIX) s in
    let pack := PyStr.rsplit "-" 2 p in
    if chkpackage pack then
      match pack with
      | [n; v; r] => MkCygPackage n v r
      | _ => INVALID_PACKAGE   (* not reached: chkpackage checked the length *)
      end
    else INVALID_PACKAGE.

Definition ispackfile (s : string) : bool := is_valid (cygpackage s).

Definition packname (p : CygPackage) : string :=
  match p with
  | INVALID_PACKAGE => ""
  | MkCygPackage n v r => n ++ "-" ++ v ++ "-" ++ r ++ SUFFIX
  end.

(** What [chkpackage] has checked of an identity built by [cygpackage]. *)
Definition parsed (p : CygPackage) : bool :=
  match p with
  | MkCygPackage _ v r => chkversion v && chkrelease r
  | INVALID_PACKAGE => false
  end.

(** The grammars as the specification words them, to compare with the
    validators: one digit followed by digits or dots, and one non-zero
    digit followed by digits. *)
Definition version_grammar (s : string) : bool :=
  match s with
  | EmptyString => false
  | String c rest => Re.digit c && PyStr.all_chars Re.digit_or_dot rest
  end.

Definition release_grammar (s : string) : bool :=
  match s with
  | EmptyString => false
  | String c rest => Re.nonzero_digit c && PyStr.all_chars Re.digit rest
  end.

(** The characters a validator lets through: digits, dots and the newline
    that [$] tolerates at the end. *)
Definition version_char (c : ascii) : bool :=
  Re.digit_or_dot c || Ascii.eqb c Re.newline.

(** ** Sorting, grouping and paths *)

(** [l.sort(key=key)] with string keys.  Python's sort is stable and orders
    by [<] on the keys; for a total order on keys all stable sorts return
    the same list, modelled here by insertion from the right, where an
    element goes before the elements of the sorted tail that do not have a
    smaller key. *)
Fixpoint insert_by {A : Type} (key : A -> string) (x : A) (l : list A) : list A :=
  match l with
  | [] => [x]
  | y :: l' => if (key x <=? key y) then x :: l else y :: insert_by key x l'
  end.

(** The order of the keys, as a relation on the elements. *)
Definition key_le {A : Type} (key : A -> string) (a b : A) : Prop :=
  (key a <=? key b) = true.

Definition sort_by {A : Type} (key : A -> string) (l : list A) : list A :=
  fold_right (insert_by key) [] l.

(** [l.pop()]: the last element and the list without it; [None] stands for
    the [IndexError] on an empty list. *)
Fixpoint pop {A : Type} (l : list A) : option (A * list A) :=
  match l with
  | [] => None
  | x :: l' =>
      match pop l' with
      | None => Some (x, [])
      | Some (y, r) => Some (y, x :: r)
      end
  end.

(** [itertools.groupby(l, key=key)]: the maximal runs of consecutive
    elements with equal keys, each with its key. *)
Fixpoint groupby {A : Type} (key : A -> string) (l : list A)
  : list (string * list A) :=
  match l with
  | [] => []
  | x :: l' =>
      match groupby key l' with
      | (k, g) :: gs =>
          if (key x =? k) then (k, x :: g) :: gs
          else (key x, [x]) :: (k, g) :: gs
      | [] => [(key x, [x])]
      end
  end.

(** [os.path.join(a, b)] of [posixpath], the [os.path] of Cygwin and of
    POSIX systems. *)
Definition join (a b : string) : string :=
  if PyStr.startswith b "/" then b
  else if (a =? "") || PyStr.endswith a "/" then a ++ b
  else a ++ "/" ++ b.

(** ** Selection of the newest package and removal *)

(** The sort key of [clean]: [p.version + "-" + p.release]. *)
Definition vr_key (p : CygPackage) : string := version p ++ "-" ++ release p.

(** The selector, the first two statements of the loop body of [clean]:
    [vs.sort(key=...); p = vs.pop()].  It returns the identity kept and the
    identities left in [vs]. *)
Definition select (vs : list CygPackage) : option (CygPackage * list CygPackage) :=
  pop (sort_by vr_key vs).

(** The dictionary [trash], from the identity kept to the paths to remove.
    Keys are compared by value, as tuples are. *)
Definition Trash : Type := list (CygPackage * list string).

Fixpoint dict_set (k : CygPackage) (v : list string) (d : Trash) : Trash :=
  match d with
  | [] => [(k, v)]
  | (k', v') :: d' =>
      if CygPackage_eq_dec k k' then (k', v) :: d'
      else (k', v') :: dict_set k v d'
  end.

Fixpoint clean_loop (root : string) (pks : list (list CygPackage)) (trash : Trash)
  : option Trash :=
  match pks with
  | [] => Some trash
  | vs :: pks' =>
      match select vs with
      | None => None
      | Some (p, vs') =>
          clean_loop root pks'
            (match vs' with
             | [] => trash
             | _ :: _ => dict_set p (map (fun v => join root (packname v)) vs') trash
             end)
      end
  end.

Definition clean (root : string) (pks : list (list CygPackage)) : option Trash :=
  clean_loop root pks [].

(** What the program does to the outside: a [print] statement with the
    text it prints, or [os.remove] of a path. *)
Inductive event : Type :=
| Print (text : string)
| Remove (path : string).

Definition nl : string := String Re.newline EmptyString.

Definition rmtrash_v (items : Trash) : list event :=
  flat_map (fun '(p, vs) =>
    [ Print ("Latest version of " ++ package p ++ " is "
             ++ version p ++ "-" ++ release p);
      Print (String.concat nl vs ++ nl) ]) items.

(** [trash.items()] of a Python 2 dictionary lists the entries in an order
    the language leaves open; [order] is that enumeration.  It is the same
    at both traversals since the dictionary is not changed in between. *)
Definition rmtrash (order : Trash -> Trash) (trash : Trash) (verbose : bool)
  : list event :=
  ((if verbose then rmtrash_v (order trash) else [])
   ++ flat_map (fun '(_, vs) => map Remove vs) (order trash))%list.

(** [prune]; [None] is an exception raised before anything is printed or
    removed. *)
Definition prune (order : Trash -> Trash) (root : string) (files : list string)
  (verbose : bool) : option (list event) :=
  let pfiles := filter ispackfile files in
  if (List.length pfiles =? 1)%nat then Some []
  else
    let packages := sort_by package (map cygpackage pfiles) in
    let pks := map snd (groupby package packages) in
    match clean root pks with
    | None => None
    | Some trash => Some (rmtrash order trash verbose)
    end.

Definition ispackdir (root : string) (dirs files : list string) : bool :=
  existsb ispackfile files.

(** [forp] over the triples [os.walk] yields.  The result is what was
    printed and removed, and whether the walk ran to its end. *)
Fixpoint forp (f : string -> list string -> bool -> option (list event))
  (pred : string -> list string -> list string -> bool)
  (walk : list (string * list string * list string)) (verbose : bool)
  : list event * bool :=
  match walk with
  | [] => ([], true)
  | (root, dirs, files) :: rest =>
      if pred root dirs files then
        match f root files verbose with
        | None => ([], false)
        | Some ev => let (ev', ok) := forp f pred rest verbose in ((ev ++ ev')%list, ok)
        end
      else forp f pred rest verbose
  end.

(** The paths removed by a run. *)
Definition removed (evs : list event) : list string :=
  flat_map (fun e => match e with Remove p => [p] | Print _ => [] end) evs.

(** ** Examples from the doctests *)

Example cygpackage_doc1 :
  cygpackage "libstdc++6-4.5.3-3.tar.bz2" = MkCygPackage "libstdc++6" "4.5.3" "3".
Proof. reflexivity. Qed.
Example cygpackage_doc2 :
  cygpackage "gcc4-core-4.5.3-3.tar.bz2" = MkCygPackage "gcc4-core" "4.5.3" "3".
Proof. reflexivity. Qed.
Example cygpackage_doc3 : cygpackage "foobar.tar.bz2" = INVALID_PACKAGE.
Proof. reflexivity. Qed.
Example chkversion_doc :
  map chkversion ["4.5.3"; "20121212"; "1.3"; ".3.2"; "3.4.foo"; ""]
  = [true; true; true; false; false; false].
Proof. reflexivity. Qed.
Example chkrelease_doc :
  map chkrelease ["0"; "1"; "7"; "100"; "quux"; "01"]
  = [false; true; true; true; false; false].
Proof. reflexivity. Qed.

Example prune_libstdc :
  prune (fun t => t) "/c" ["libstdc++6-4.5.3-3.tar.bz2"; "README"; "libstdc++6-4.5.2-1.tar.bz2"] false
  = Some [Remove "/c/libstdc++6-4.5.2-1.tar.bz2"].
Proof. reflexivity. Qed.

Example prune_three :
  prune (fun t => t) "/c/" ["b-1.0-1.tar.bz2"; "a-2.0-1.tar.bz2"; "b-1.5-3.tar.bz2"; "a-1.0-1.tar.bz2"; "b-1.0-2.tar.bz2"] false
  = Some [Remove "/c/a-1.0-1.tar.bz2"; Remove "/c/b-1.0-1.tar.bz2"; Remove "/c/b-1.0-2.tar.bz2"].
Proof. reflexivity. Qed.

(** ** Facts about strings *)

Section StringFacts.

Lemma append_nil_r (s : string) : s ++ "" = s.
Proof. induction s as [|c s IH]; simpl; congruence. Qed.

Lemma append_assoc (a b c : string) : (a ++ b) ++ c = a ++ b ++ c.
Proof. induction a as [|x a IH]; simpl; congruence. Qed.

Lemma length_append (a b : string) :
  String.length (a ++ b) = String.length a + String.length b.
Proof. induction a as [|x a IH]; simpl; congruence. Qed.

Lemma append_inv_head (a b c : string) : a ++ b = a ++ c -> b = c.
Proof. induction a as [|x a IH]; simpl; intros H; [assumption|]. injection H; auto. Qed.

Lemma append_inv_tail (a b c : string) : a ++ c = b ++ c -> a = b.
Proof.
  revert b; induction a as [|x a IH]; intros [|y b] H; simpl in H.
  - reflexivity.
  - apply (f_equal String.length) in H. simpl in H. rewrite length_append in H. lia.
  - apply (f_equal String.length) in H. simpl in H. rewrite length_append in H. lia.
  - injection H as -> H. f_equal. auto.
Qed.

Lemma substring_all (s : string) : substring 0 (String.length s) s = s.
Proof. induction s as [|c s IH]; simpl; congruence. Qed.

Lemma substring_app_l (p q : string) : substring 0 (String.length p) (p ++ q) = p.
Proof.
  induction p as [|c p IH]; simpl.
  - destruct q; reflexivity.
  - congruence.
Qed.

Lemma substring_app_r (p q : string) :
  substring (String.length p) (String.length q) (p ++ q) = q.
Proof. induction p as [|c p IH]; simpl; [apply substring_all | assumption]. Qed.

Lemma substring_split (k : nat) (s : string) :
  k <= String.length s ->
  s = substring 0 k s ++ substring k (String.length s - k) s.
Proof.
  revert k; induction s as [|c s IH]; intros k Hk; simpl in Hk.
  - destruct k; [reflexivity | lia].
  - destruct k as [|k]; simpl.
    + now rewrite substring_all.
    + f_equal. apply IH. lia.
Qed.

Lemma length_substring (n m : nat) (s : string) :
  n + m <= String.length s -> String.length (substring n m s) = m.
Proof.
  revert n m; induction s as [|c s IH]; intros n m H; simpl in H.
  - assert (n = 0) by lia. assert (m = 0) by lia. subst. reflexivity.
  - destruct n as [|n]; simpl.
    + destruct m as [|m]; simpl; [reflexivity|]. f_equal. apply IH. lia.
    + apply IH. lia.
Qed.

End StringFacts.

(** [endswith] is the existence of a prefix, and the slice of [cygpackage]
    is that prefix. *)
Lemma endswith_spec (s suf : string) :
  PyStr.endswith s suf = true <-> exists p, s = p ++ suf.
Proof.
  unfold PyStr.endswith. rewrite andb_true_iff, Nat.leb_le, String.eqb_eq. split.
  - intros [Hlen Hsub].
    exists (substring 0 (String.length s - String.length suf) s).
    rewrite (substring_split (String.length s - String.length suf) s) at 1 by lia.
    f_equal. rewrite <- Hsub at 3. f_equal. lia.
  - intros [p ->]. rewrite length_append. split; [lia|].
    replace (String.length p + String.length suf - String.length suf)
      with (String.length p) by lia.
    apply substring_app_r.
Qed.

Lemma slice_to_suffix (p suf : string) :
  PyStr.slice_to (String.length (p ++ suf) - String.length suf) (p ++ suf) = p.
Proof.
  unfold PyStr.slice_to. rewrite length_append.
  replace (String.length p + String.length suf - String.length suf)
    with (String.length p) by lia.
  apply substring_app_l.
Qed.

(** ** Facts about [rpartition] and [rsplit] *)

Lemma contains_app (sep : ascii) (a b : string) :
  PyStr.contains sep (a ++ b) = PyStr.contains sep a || PyStr.contains sep b.
Proof.
  induction a as [|c a IH]; simpl; [reflexivity|].
  rewrite IH. apply orb_assoc.
Qed.

Lemma rpartition_none (sep : ascii) (s : string) :
  PyStr.rpartition sep s = None <-> PyStr.contains sep s = false.
Proof.
  induction s as [|c s IH]; simpl; [tauto|].
  destruct (PyStr.rpartition sep s) as [[a b]|].
  - destruct IH as [_ IH]. split; [discriminate|].
    rewrite orb_false_iff. intros [_ H]. specialize (IH H). discriminate.
  - destruct IH as [IH _]. rewrite (IH eq_refl), orb_false_r.
    destruct (Ascii.eqb c sep); split; congruence.
Qed.

Lemma rpartition_some (sep : ascii) (s a b : string) :
  PyStr.rpartition sep s = Some (a, b) ->
  s = a ++ String sep b /\ PyStr.contains sep b = false.
Proof.
  revert a b; induction s as [|c s IH]; simpl; intros a b H; [discriminate|].
  destruct (PyStr.rpartition sep s) as [[a' b']|] eqn:E.
  - injection H as <- <-. destruct (IH _ _ eq_refl) as [-> Hb]. split; auto.
  - destruct (Ascii.eqb_spec c sep) as [->|]; [|discriminate].
    injection H as <- <-. split; [reflexivity|]. now apply rpartition_none.
Qed.

Lemma rpartition_app (sep : ascii) (a b : string) :
  PyStr.contains sep b = false ->
  PyStr.rpartition sep (a ++ String sep b) = Some (a, b).
Proof.
  intros Hb. induction a as [|c a IH]; simpl.
  - apply rpartition_none in Hb. rewrite Hb, Ascii.eqb_refl. reflexivity.
  - rewrite IH. reflexivity.
Qed.

(** Three parts come out of [rsplit(sep, 2)] exactly when the string has
    two separators; the last two parts hold none. *)
Lemma rsplit2_three (sep : ascii) (s n v r : string) :
  PyStr.rsplit sep 2 s = [n; v; r] ->
  s = n ++ String sep (v ++ String sep r)
  /\ PyStr.contains sep v = false /\ PyStr.contains sep r = false.
Proof.
  simpl. destruct (PyStr.rpartition sep s) as [[a b]|] eqn:E; [|discriminate].
  destruct (PyStr.rpartition sep a) as [[a' b']|] eqn:E'; [|discriminate].
  simpl. intros H. injection H as <- <- <-.
  apply rpartition_some in E as [-> Hb].
  apply rpartition_some in E' as [-> Hb'].
  rewrite append_assoc. auto.
Qed.

Lemma rsplit2_build (sep : ascii) (n v r : string) :
  PyStr.contains sep v = false -> PyStr.contains sep r = false ->
  PyStr.rsplit sep 2 (n ++ String sep (v ++ String sep r)) = [n; v; r].
Proof.
  intros Hv Hr. simpl.
  change (n ++ String sep (v ++ String sep r))
    with (n ++ (String sep v) ++ String sep r).
  rewrite <- append_assoc, (rpartition_app sep _ r Hr), (rpartition_app sep n v Hv).
  reflexivity.
Qed.

Lemma rsplit_length (sep : ascii) (k : nat) (s : string) :
  1 <= List.length (PyStr.rsplit sep k s) <= S k.
Proof.
  revert s; induction k as [|k IH]; intros s; simpl; [lia|].
  destruct (PyStr.rpartition sep s) as [[a b]|]; simpl; [|lia].
  rewrite length_app. simpl. specialize (IH a). lia.
Qed.

(** ** The validators, character by character *)

Lemma all_chars_app (p : ascii -> bool) (a b : string) :
  PyStr.all_chars p (a ++ b) = PyStr.all_chars p a && PyStr.all_chars p b.
Proof.
  induction a as [|c a IH]; simpl; [reflexivity|].
  rewrite IH. apply andb_assoc.
Qed.

Lemma all_chars_contains (p : ascii -> bool) (sep : ascii) (s : string) :
  p sep = false -> PyStr.all_chars p s = true -> PyStr.contains sep s = false.
Proof.
  intros Hp. induction s as [|c s IH]; simpl; [reflexivity|].
  rewrite andb_true_iff. intros [Hc Hs]. rewrite (IH Hs), orb_false_r.
  destruct (Ascii.eqb_spec c sep); congruence.
Qed.

Lemma star_unfold (cls : ascii -> bool) (pat : list Re.atom) (b : bool)
  (c : ascii) (s : string) :
  Re.match_here (Re.Star cls :: pat) b (String c s)
  = (cls c && Re.match_here (Re.Star cls :: pat) false s)
    || Re.match_here pat b (String c s).
Proof. reflexivity. Qed.

(** A starred class followed by [$] accepts the strings of the class and
    those strings followed by one newline. *)
Lemma star_eol (cls : ascii -> bool) (b : bool) (s : string) :
  Re.match_here [Re.Star cls; Re.Eol] b s = true <->
  PyStr.all_chars cls s = true \/
  exists s0, s = s0 ++ nl /\ PyStr.all_chars cls s0 = true.
Proof.
  revert b; induction s as [|c s IH]; intros b.
  - simpl. tauto.
  - rewrite star_unfold, orb_true_iff, andb_true_iff, IH. simpl PyStr.all_chars.
    rewrite andb_true_iff. split.
    + intros [[Hc [Hs | [s0 [-> Hs0]]]] | He].
      * auto.
      * right. exists (String c s0). simpl. rewrite Hc. auto.
      * right. exists "". simpl in He. destruct s; [|discriminate].
        rewrite andb_true_r in He. apply Ascii.eqb_eq in He. subst c. auto.
    + intros [[Hc Hs] | [s0 [E Hs0]]].
      * auto.
      * destruct s0 as [|c0 s0]; simpl in E; injection E as -> ->.
        -- right. reflexivity.
        -- simpl in Hs0. apply andb_true_iff in Hs0 as [Hc Hs0].
           left. split; [assumption|]. right. eauto.
Qed.

(** What [chkversion] and [chkrelease] accept: the grammar, or the grammar
    followed by one newline. *)
Lemma chkversion_spec (s : string) :
  chkversion s = true <->
  version_grammar s = true \/ exists s0, s = s0 ++ nl /\ version_grammar s0 = true.
Proof.
  unfold chkversion, Re.re_match.
  destruct s as [|c s].
  - simpl. split; [discriminate|].
    intros [H | [[|c0 s0] [E H]]]; discriminate.
  - change (Re.match_here [Re.Bol; Re.Cls Re.digit; Re.Star Re.digit_or_dot; Re.Eol]
              true (String c s))
      with (Re.digit c && Re.match_here [Re.Star Re.digit_or_dot; Re.Eol] false s).
    rewrite andb_true_iff, star_eol. simpl version_grammar. rewrite andb_true_iff.
    split.
    + intros [Hc [Hs | [s0 [-> Hs0]]]]; [auto|].
      right. exists (String c s0). simpl. rewrite Hc. auto.
    + intros [[Hc Hs] | [s0 [E Hs0]]]; [auto|].
      destruct s0 as [|c0 s0]; [discriminate|]. simpl in E. injection E as -> ->.
      simpl in Hs0. apply andb_true_iff in Hs0 as [Hc Hs0]. eauto.
Qed.

Lemma chkrelease_spec (s : string) :
  chkrelease s = true <->
  release_grammar s = true \/ exists s0, s = s0 ++ nl /\ release_grammar s0 = true.
Proof.
  unfold chkrelease, Re.re_match.
  destruct s as [|c s].
  - simpl. split; [discriminate|].
    intros [H | [[|c0 s0] [E H]]]; discriminate.
  - change (Re.match_here [Re.Bol; Re.Cls Re.nonzero_digit; Re.Star Re.digit; Re.Eol]
              true (String c s))
      with (Re.nonzero_digit c && Re.match_here [Re.Star Re.digit; Re.Eol] false s).
    rewrite andb_true_iff, star_eol. simpl release_grammar. rewrite andb_true_iff.
    split.
    + intros [Hc [Hs | [s0 [-> Hs0]]]]; [auto|].
      right. exists (String c s0). simpl. rewrite Hc. auto.
    + intros [[Hc Hs] | [s0 [E Hs0]]]; [auto|].
      destruct s0 as [|c0 s0]; [discriminate|]. simpl in E. injection E as -> ->.
      simpl in Hs0. apply andb_true_iff in Hs0 as [Hc Hs0]. eauto.
Qed.

Lemma version_grammar_chars (s : string) :
  version_grammar s = true -> PyStr.all_chars version_char s = true.
Proof.
  destruct s as [|c s]; simpl; [discriminate|].
  rewrite andb_true_iff. intros [Hc Hs]. unfold version_char at 1, Re.digit_or_dot.
  rewrite Hc. simpl. induction s as [|d s IH]; simpl in *; [reflexivity|].
  apply andb_true_iff in Hs as [Hd Hs]. unfold version_char at 1. rewrite Hd. auto.
Qed.

Lemma nonzero_digit_digit (c : ascii) :
  Re.nonzero_digit c = true -> Re.digit c = true.
Proof. destruct c as [[] [] [] [] [] [] [] []]; vm_compute; auto. Qed.

Lemma release_grammar_version (s : string) :
  release_grammar s = true -> version_grammar s = true.
Proof.
  destruct s as [|c s]; simpl; [discriminate|].
  rewrite !andb_true_iff. intros [Hc Hs]. split.
  - now apply nonzero_digit_digit.
  - clear Hc. induction s as [|d s IH]; simpl in *; [reflexivity|].
    apply andb_true_iff in Hs as [Hd Hs]. unfold Re.digit_or_dot. rewrite Hd. auto.
Qed.

Lemma chkversion_chars (s : string) :
  chkversion s = true -> PyStr.all_chars version_char s = true.
Proof.
  rewrite chkversion_spec. intros [H | [s0 [-> H]]].
  - now apply version_grammar_chars.
  - rewrite all_chars_app, (version_grammar_chars _ H). reflexivity.
Qed.

Lemma chkrelease_chkversion (s : string) : chkrelease s = true -> chkversion s = true.
Proof.
  rewrite chkrelease_spec, chkversion_spec.
  intros [H | [s0 [-> H]]]; [left | right; exists s0; split; [reflexivity|]];
    now apply release_grammar_version.
Qed.

(** No validated version or release holds a hyphen. *)
Lemma chkversion_no_hyphen (s : string) :
  chkversion s = true -> PyStr.contains "-" s = false.
Proof.
  intros H. apply (all_chars_contains version_char); [reflexivity|].
  now apply chkversion_chars.
Qed.

Lemma chkrelease_no_hyphen (s : string) :
  chkrelease s = true -> PyStr.contains "-" s = false.
Proof. intros H. now apply chkversion_no_hyphen, chkrelease_chkversion. Qed.

(** ** The parser *)

Lemma cygpackage_inv (s n v r : string) :
  cygpackage s = MkCygPackage n v r ->
  s = packname (MkCygPackage n v r) /\ chkversion v = true /\ chkrelease r = true.
Proof.
  unfold cygpackage.
  destruct (PyStr.endswith s SUFFIX) eqn:He; simpl negb; cbv beta iota zeta;
    [|discriminate].
  apply endswith_spec in He as [p ->]. rewrite slice_to_suffix.
  destruct (chkpackage (PyStr.rsplit "-" 2 p)) eqn:Hc; cbv iota; [|discriminate].
  destruct (PyStr.rsplit "-" 2 p) as [|n' [|v' [|r' [|x l]]]] eqn:Hs; try discriminate.
  intros H. injection H as -> -> ->.
  apply rsplit2_three in Hs as [-> _].
  unfold chkpackage in Hc. simpl in Hc. apply andb_true_iff in Hc as [Hv Hr].
  split; [|auto]. simpl. rewrite !append_assoc. simpl. rewrite append_assoc. reflexivity.
Qed.

Lemma cygpackage_packname (n v r : string) :
  chkversion v = true -> chkrelease r = true ->
  cygpackage (packname (MkCygPackage n v r)) = MkCygPackage n v r.
Proof.
  intros Hv Hr. unfold cygpackage.
  assert (E : packname (MkCygPackage n v r)
              = (n ++ String "-" (v ++ String "-" r)) ++ SUFFIX).
  { simpl. rewrite !append_assoc. simpl. rewrite append_assoc. reflexivity. }
  rewrite E.
  replace (PyStr.endswith _ SUFFIX) with true
    by (symmetry; apply endswith_spec; eauto).
  simpl negb. cbv beta iota zeta. rewrite slice_to_suffix.
  rewrite rsplit2_build by auto using chkversion_no_hyphen, chkrelease_no_hyphen.
  unfold chkpackage. simpl. rewrite Hv, Hr. reflexivity.
Qed.

Lemma ispackfile_packname (f : string) :
  ispackfile f = true -> packname (cygpackage f) = f.
Proof.
  unfold ispackfile. destruct (cygpackage f) as [|n v r] eqn:E; [discriminate|].
  intros _. apply cygpackage_inv in E as [E _]. now symmetry.
Qed.

Lemma cygpackage_fields (f : string) :
  ispackfile f = true ->
  chkversion (version (cygpackage f)) = true /\
  chkrelease (release (cygpackage f)) = true.
Proof.
  unfold ispackfile. destruct (cygpackage f) as [|n v r] eqn:E; [discriminate|].
  intros _. apply cygpackage_inv in E. tauto.
Qed.

(** ** The order on strings *)

Lemma string_leb_refl (a : string) : (a <=? a) = true.
Proof. destruct (String.leb_total a a); assumption. Qed.

Lemma string_leb_trans (a b c : string) :
  (a <=? b) = true -> (b <=? c) = true -> (a <=? c) = true.
Proof.
  revert b c; induction a as [|x a IH]; intros [|y b] [|z c]; try easy.
  specialize (IH b c). unfold String.leb in *. simpl. unfold Ascii.compare.
  destruct (N.compare_spec (N_of_ascii x) (N_of_ascii y));
    destruct (N.compare_spec (N_of_ascii y) (N_of_ascii z));
    destruct (N.compare_spec (N_of_ascii x) (N_of_ascii z));
    try discriminate; try lia; auto.
Qed.

Lemma string_ltb_leb (a b : string) : (a <? b) = negb (b <=? a).
Proof.
  unfold String.ltb, String.leb. rewrite (String.compare_antisym b a).
  destruct (String.compare a b); reflexivity.
Qed.

Lemma string_ltb_iff (a b : string) :
  (a <? b) = true <-> (a <=? b) = true /\ a <> b.
Proof.
  rewrite string_ltb_leb. split.
  - intros H. apply negb_true_iff in H. split.
    + destruct (String.leb_total a b); congruence.
    + intros ->. rewrite string_leb_refl in H. discriminate.
  - intros [H Hne]. apply negb_true_iff. destruct (b <=? a) eqn:E; [|reflexivity].
    exfalso. apply Hne. now apply String.leb_antisym.
Qed.

(** ** Sorting and popping *)

Section SortBy.

Context {A : Type} (key : A -> string).

Lemma insert_by_perm (x : A) (l : list A) : Permutation (insert_by key x l) (x :: l).
Proof.
  induction l as [|y l IH]; simpl; [reflexivity|].
  destruct (key x <=? key y); [reflexivity|].
  rewrite IH. apply perm_swap.
Qed.

Lemma sort_by_perm (l : list A) : Permutation (sort_by key l) l.
Proof.
  induction l as [|x l IH]; simpl; [reflexivity|].
  rewrite insert_by_perm. now constructor.
Qed.

Lemma sort_by_In (l : list A) (x : A) : In x (sort_by key l) <-> In x l.
Proof.
  split; apply Permutation_in; [|symmetry]; apply sort_by_perm.
Qed.

Lemma insert_by_sorted (x : A) (l : list A) :
  StronglySorted (key_le key) l -> StronglySorted (key_le key) (insert_by key x l).
Proof.
  induction 1 as [|y l Hl IH Hy]; simpl.
  - repeat constructor.
  - destruct (key x <=? key y) eqn:E.
    + constructor; [now constructor|]. constructor; [exact E|].
      eapply Forall_impl; [|exact Hy]. intros z Hz.
      unfold key_le in *. eapply string_leb_trans; eassumption.
    + constructor; [assumption|].
      rewrite Forall_forall. intros z Hz.
      apply (Permutation_in _ (insert_by_perm x l)) in Hz. destruct Hz as [<-|Hz].
      * unfold key_le. destruct (String.leb_total (key x) (key y)); congruence.
      * rewrite Forall_forall in Hy. auto.
Qed.

Lemma sort_by_sorted (l : list A) : StronglySorted (key_le key) (sort_by key l).
Proof.
  induction l as [|x l IH]; simpl; [constructor | now apply insert_by_sorted].
Qed.

(** A list that is sorted already is left as it is. *)
Lemma sort_by_id (l : list A) : StronglySorted (key_le key) l -> sort_by key l = l.
Proof.
  induction 1 as [|x l Hl IH Hx]; simpl; [reflexivity|].
  rewrite IH. destruct l as [|y l]; simpl; [reflexivity|].
  inversion Hx as [|? ? Hxy _]; subst. unfold key_le in Hxy. now rewrite Hxy.
Qed.

Lemma pop_spec (l r : list A) (p : A) : pop l = Some (p, r) <-> l = (r ++ [p])%list.
Proof.
  revert r p; induction l as [|x l IH]; intros r p; simpl.
  - split; [discriminate|]. destruct r; discriminate.
  - destruct (pop l) as [[y r']|] eqn:E.
    + pose proof (proj1 (IH r' y) eq_refl) as ->. split.
      * intros H. injection H as <- <-. reflexivity.
      * destruct r as [|z r]; simpl; intros H; injection H as <- H.
        -- destruct r'; discriminate.
        -- apply app_inj_tail in H as [<- <-]. reflexivity.
    + assert (l = []) as ->.
      { destruct l as [|z l]; [reflexivity|]. simpl in E.
        destruct (pop l) as [[? ?]|]; discriminate. }
      split.
      * intros H. injection H as <- <-. reflexivity.
      * destruct r as [|z r]; simpl; intros H.
        -- injection H as <-. reflexivity.
        -- injection H as _ H. destruct r; discriminate.
Qed.

Lemma pop_none (l : list A) : pop l = None <-> l = [].
Proof.
  destruct l as [|x l]; simpl; [tauto|].
  destruct (pop l) as [[? ?]|]; split; discriminate.
Qed.

Lemma sorted_last_max (r : list A) (p : A) :
  StronglySorted (key_le key) (r ++ [p]) -> forall x, In x r -> key_le key x p.
Proof.
  induction r as [|y r IH]; simpl; intros H x Hx; [contradiction|].
  inversion H as [|? ? Hs Hy]; subst. destruct Hx as [<-|Hx].
  - rewrite Forall_forall in Hy. apply Hy, in_or_app. right. now left.
  - now apply IH.
Qed.

(** Sorting and popping a list that is not empty gives a greatest element
    and the others, in sorted order. *)
Lemma pop_sort_by (l : list A) :
  l <> [] ->
  exists p r,
    pop (sort_by key l) = Some (p, r)
    /\ sort_by key l = (r ++ [p])%list
    /\ Permutation l (p :: r)
    /\ forall x, In x l -> key_le key x p.
Proof.
  intros Hl.
  destruct (pop (sort_by key l)) as [[p r]|] eqn:E.
  - exists p, r. pose proof (proj1 (pop_spec _ _ _) E) as Hs.
    split; [reflexivity|]. split; [assumption|]. split.
    + rewrite <- (sort_by_perm l), Hs. symmetry. apply Permutation_cons_append.
    + intros x Hx. apply sort_by_In in Hx. rewrite Hs in Hx.
      apply in_app_or in Hx as [Hx|[<-|[]]].
      * apply (sorted_last_max r p); [|assumption]. rewrite <- Hs. apply sort_by_sorted.
      * apply string_leb_refl.
  - apply pop_none in E. exfalso. apply Hl.
    apply Permutation_nil. rewrite <- E. apply sort_by_perm.
Qed.

End SortBy.

(** ** Grouping *)

Section GroupBy.

Context {A : Type} (key : A -> string).

Lemma groupby_concat (l : list A) : concat (map snd (groupby key l)) = l.
Proof.
  induction l as [|x l IH]; simpl; [reflexivity|].
  destruct (groupby key l) as [|[k g] gs]; simpl in *.
  - now rewrite <- IH.
  - destruct (key x =? k); simpl; now rewrite <- IH.
Qed.

(** Every group is a run that is not empty, of elements with the key of
    the group. *)
Lemma groupby_groups (l : list A) (k : string) (g : list A) :
  In (k, g) (groupby key l) -> g <> [] /\ forall x, In x g -> key x = k.
Proof.
  revert k g; induction l as [|x l IH]; simpl; intros k g H; [contradiction|].
  destruct (groupby key l) as [|[k' g'] gs].
  - destruct H as [H|[]]. injection H as <- <-. split; [discriminate|].
    simpl. intros y [<-|[]]. reflexivity.
  - destruct (String.eqb_spec (key x) k') as [E|E].
    + destruct H as [H|H].
      * injection H as <- <-. split; [discriminate|].
        simpl. intros y [<-|Hy]; [assumption|]. apply (IH k' g'); [now left|assumption].
      * apply IH. now right.
    + destruct H as [H|H].
      * injection H as <- <-. split; [discriminate|].
        simpl. intros y [<-|[]]. reflexivity.
      * now apply IH.
Qed.

Lemma groupby_head (x : A) (l : list A) :
  exists g gs, groupby key (x :: l) = (key x, g) :: gs.
Proof.
  simpl. destruct (groupby key l) as [|[k g] gs]; [eauto|].
  destruct (String.eqb_spec (key x) k) as [<-|]; eauto.
Qed.

Lemma groupby_key_In (l : list A) (k : string) :
  In k (map fst (groupby key l)) -> exists y, In y l /\ key y = k.
Proof.
  intros H. apply in_map_iff in H as [[k' g] [E H]]. simpl in E. subst k'.
  pose proof (groupby_groups _ _ _ H) as [Hne Hk].
  destruct g as [|y g]; [congruence|]. exists y. split; [|apply Hk; now left].
  rewrite <- (groupby_concat l). apply in_concat. exists (y :: g).
  split; [|now left]. apply in_map_iff. exists (k, y :: g). auto.
Qed.

(** After a sort on the same key no two groups have the same key. *)
Lemma groupby_sorted_NoDup (l : list A) :
  StronglySorted (key_le key) l -> NoDup (map fst (groupby key l)).
Proof.
  induction 1 as [|x l Hl IH Hx]; [constructor|].
  simpl. destruct (groupby key l) as [|[k g] gs] eqn:E; simpl.
  - repeat constructor. intros [].
  - destruct (String.eqb_spec (key x) k) as [Ek|Ek]; simpl; [exact IH|].
    constructor; [|exact IH]. intros Hin.
    destruct l as [|y0 l']; [discriminate|].
    destruct (groupby_head y0 l') as [g0 [gs0 E0]]. rewrite E in E0.
    injection E0 as -> _ _.
    assert (Hy : exists y, In y (y0 :: l') /\ key y = key x).
    { apply groupby_key_In. rewrite E. exact Hin. }
    destruct Hy as [y [Hy Ey]].
    apply Ek. apply String.leb_antisym.
    + rewrite Forall_forall in Hx. apply Hx. now left.
    + rewrite <- Ey. destruct Hy as [<-|Hy]; [apply string_leb_refl|].
      inversion Hl as [|? ? _ Hy0]; subst. rewrite Forall_forall in Hy0. now apply Hy0.
Qed.

(** Every element lies in the group of its key. *)
Lemma groupby_In (l : list A) (x : A) :
  In x l -> exists g, In (key x, g) (groupby key l) /\ In x g.
Proof.
  intros H. rewrite <- (groupby_concat l) in H. apply in_concat in H as [g [Hg Hx]].
  apply in_map_iff in Hg as [[k g'] [E Hg]]. simpl in E. subst g'.
  exists g. split; [|assumption].
  pose proof (groupby_groups _ _ _ Hg) as [_ Hk]. now rewrite (Hk x Hx).
Qed.

End GroupBy.

Lemma NoDup_fst_functional {K V : Type} (l : list (K * V)) (k : K) (v v' : V) :
  NoDup (map fst l) -> In (k, v) l -> In (k, v') l -> v = v'.
Proof.
  induction l as [|[k0 v0] l IH]; simpl; intros Hnd H H'; [contradiction|].
  inversion Hnd as [|? ? Hnot Hnd']; subst.
  destruct H as [H|H], H' as [H'|H'].
  - congruence.
  - injection H as <- <-. exfalso. apply Hnot. apply in_map_iff. exists (k0, v'). auto.
  - injection H' as <- <-. exfalso. apply Hnot. apply in_map_iff. exists (k0, v). auto.
  - now apply IH.
Qed.

(** ** Identities, keys and paths *)

Lemma cygpackage_parsed (f : string) :
  ispackfile f = true -> parsed (cygpackage f) = true.
Proof.
  unfold ispackfile. destruct (cygpackage f) as [|n v r] eqn:E; [discriminate|].
  intros _. apply cygpackage_inv in E as [_ [Hv Hr]]. simpl. now rewrite Hv, Hr.
Qed.

Lemma parsed_is_valid (p : CygPackage) : parsed p = true -> is_valid p = true.
Proof. destruct p; [discriminate | reflexivity]. Qed.

Lemma parsed_roundtrip (p : CygPackage) :
  parsed p = true -> cygpackage (packname p) = p.
Proof.
  destruct p as [|n v r]; [discriminate|]. simpl parsed.
  rewrite andb_true_iff. intros [Hv Hr]. now apply cygpackage_packname.
Qed.

Lemma split_unique (sep : ascii) (a a' b b' : string) :
  PyStr.contains sep a = false -> PyStr.contains sep a' = false ->
  a ++ String sep b = a' ++ String sep b' -> a = a' /\ b = b'.
Proof.
  revert a'; induction a as [|c a IH]; intros [|c' a']; simpl; intros Ha Ha' E.
  - injection E as ->. auto.
  - injection E as <- _. rewrite Ascii.eqb_refl in Ha'. discriminate.
  - injection E as -> _. rewrite Ascii.eqb_refl in Ha. discriminate.
  - injection E as <- E. apply orb_false_iff in Ha as [_ Ha], Ha' as [_ Ha'].
    destruct (IH a' Ha Ha' E) as [-> ->]. auto.
Qed.

(** Among parsed identities of one name the sort key tells the identity. *)
Lemma vr_key_inj (p q : CygPackage) :
  parsed p = true -> parsed q = true -> package p = package q ->
  vr_key p = vr_key q -> p = q.
Proof.
  destruct p as [|n v r], q as [|n' v' r']; try discriminate. simpl.
  rewrite !andb_true_iff. intros [Hv _] [Hv' _] -> E. unfold vr_key in E. simpl in E.
  apply split_unique in E as [-> ->]; auto using chkversion_no_hyphen.
Qed.

Lemma startswith_slash (f : string) :
  PyStr.startswith f "/" = false ->
  forall root, exists pre, forall g,
    PyStr.startswith g "/" = false -> join root g = pre ++ g.
Proof.
  intros _ root. unfold join.
  destruct ((root =? "") || PyStr.endswith root "/").
  - exists root. intros g ->. reflexivity.
  - exists (root ++ "/"). intros g ->. now rewrite append_assoc.
Qed.

Lemma join_inj (root f g : string) :
  PyStr.startswith f "/" = false -> PyStr.startswith g "/" = false ->
  join root f = join root g -> f = g.
Proof.
  intros Hf Hg. destruct (startswith_slash f Hf root) as [pre Hpre].
  rewrite (Hpre f Hf), (Hpre g Hg). apply append_inv_head.
Qed.

(** ** The dictionary and the loop of [clean] *)

Lemma dict_set_fresh (k : CygPackage) (v : list string) (d : Trash) :
  ~ In k (map fst d) -> dict_set k v d = (d ++ [(k, v)])%list.
Proof.
  induction d as [|[k' v'] d IH]; simpl; intros H; [reflexivity|].
  destruct (CygPackage_eq_dec k k') as [->|_]; [exfalso; auto|].
  rewrite IH; auto.
Qed.

Lemma dict_set_paths (k : CygPackage) (v : list string) (d : Trash) (path : string) :
  In path (flat_map snd (dict_set k v d)) ->
  In path v \/ In path (flat_map snd d).
Proof.
  induction d as [|[k' v'] d IH]; simpl.
  - rewrite app_nil_r. auto.
  - destruct (CygPackage_eq_dec k k'); simpl; rewrite !in_app_iff; intuition.
Qed.

Lemma select_spec (vs : list CygPackage) :
  vs <> [] ->
  exists p r,
    select vs = Some (p, r)
    /\ sort_by vr_key vs = (r ++ [p])%list
    /\ Permutation vs (p :: r)
    /\ forall x, In x vs -> (vr_key x <=? vr_key p) = true.
Proof. intros H. exact (pop_sort_by vr_key vs H). Qed.

Lemma select_In (vs r : list CygPackage) (p : CygPackage) :
  select vs = Some (p, r) -> forall x, In x vs <-> x = p \/ In x r.
Proof.
  unfold select. intros H x. apply pop_spec in H.
  rewrite <- (sort_by_In vr_key vs x), H, in_app_iff. simpl. intuition.
Qed.

Lemma clean_loop_total (root : string) (pks : list (list CygPackage)) (t : Trash) :
  Forall (fun vs => vs <> []) pks -> exists t', clean_loop root pks t = Some t'.
Proof.
  intros H. revert t. induction H as [|vs pks Hvs _ IH]; intros t; simpl; [eauto|].
  destruct (select_spec vs Hvs) as [p [r [-> _]]]. apply IH.
Qed.

(** Whatever [clean] files for removal is the path of a member of one of
    the groups. *)
Lemma clean_loop_sound (root : string) (pks : list (list CygPackage)) (t t' : Trash) :
  clean_loop root pks t = Some t' ->
  forall path, In path (flat_map snd t') ->
    In path (flat_map snd t) \/
    exists vs v, In vs pks /\ In v vs /\ path = join root (packname v).
Proof.
  revert t; induction pks as [|vs pks IH]; simpl; intros t H path Hp.
  - injection H as <-. auto.
  - destruct (select vs) as [[p r]|] eqn:E; [|discriminate].
    destruct (IH _ H path Hp) as [Hin | [vs' [v [Hvs' [Hv ->]]]]].
    + assert (Hin' : In path (map (fun v => join root (packname v)) r)
                     \/ In path (flat_map snd t)).
      { destruct r as [|x r]; [now right|]. now apply dict_set_paths in Hin. }
      destruct Hin' as [Hin'|Hin']; [|now left].
      apply in_map_iff in Hin' as [v [<- Hv]]. right. exists vs, v.
      split; [now left|]. split; [|reflexivity].
      apply (select_In _ _ _ E). now right.
    + right. exists vs', v. auto.
Qed.

(** When the groups carry names that differ from one another, nothing in
    the dictionary is overwritten: the paths filed are those of everything
    each group leaves after its pop. *)
Lemma clean_loop_spec (root : string) (G : list (string * list CygPackage)) (t : Trash) :
  NoDup (map fst G) ->
  (forall k g, In (k, g) G -> g <> [] /\ forall x, In x g -> package x = k) ->
  (forall q, In q (map fst t) -> ~ In (package q) (map fst G)) ->
  exists t',
    clean_loop root (map snd G) t = Some t' /\
    forall path, In path (flat_map snd t') <->
      In path (flat_map snd t) \/
      exists k g p r, In (k, g) G /\ select g = Some (p, r)
                      /\ In path (map (fun v => join root (packname v)) r).
Proof.
  revert t; induction G as [|[k g] G IH]; simpl; intros t Hnd Hg Ht.
  - exists t. split; [reflexivity|]. intros path. split; [auto|].
    intros [H | [? [? [? [? [[] _]]]]]]. exact H.
  - inversion Hnd as [|? ? Hk Hnd']; subst.
    destruct (Hg k g (or_introl eq_refl)) as [Hne Hname].
    destruct (select_spec g Hne) as [p [r [E [_ [Hperm _]]]]]. rewrite E.
    assert (Hp : package p = k).
    { apply Hname. apply (Permutation_in _ (Permutation_sym Hperm)). now left. }
    set (t1 := match r with
               | [] => t
               | _ :: _ => dict_set p (map (fun v => join root (packname v)) r) t
               end).
    assert (Hfresh : ~ In p (map fst t)).
    { intros Hin. apply (Ht p Hin). left. now symmetry. }
    assert (Ht1 : forall path, In path (flat_map snd t1) <->
              In path (flat_map snd t)
              \/ In path (map (fun v => join root (packname v)) r)).
    { intros path. subst t1. destruct r as [|x r]; [simpl; tauto|].
      rewrite dict_set_fresh by assumption.
      rewrite flat_map_app, in_app_iff. simpl flat_map. rewrite app_nil_r. tauto. }
    assert (Hk1 : forall q, In q (map fst t1) -> ~ In (package q) (map fst G)).
    { intros q Hq. subst t1. destruct r as [|x r].
      - intros Hin. apply (Ht q Hq). now right.
      - rewrite dict_set_fresh in Hq by assumption.
        rewrite map_app, in_app_iff in Hq. destruct Hq as [Hq | [<- | []]].
        + intros Hin. apply (Ht q Hq). now right.
        + simpl. now rewrite Hp. }
    destruct (IH t1 Hnd' (fun k' g' H => Hg k' g' (or_intror H)) Hk1)
      as [t' [Et' Hpaths]].
    exists t'. split; [exact Et'|]. intros path. rewrite Hpaths, Ht1. split.
    + intros [[H | H] | [k' [g' [p' [r' [Hin [E' H]]]]]]].
      * now left.
      * right. exists k, g, p, r. auto.
      * right. exists k', g', p', r'. auto.
    + intros [H | [k' [g' [p' [r' [[Hin | Hin] [E' H]]]]]]].
      * auto.
      * injection Hin as <- <-. rewrite E in E'. injection E' as <- <-. auto.
      * right. exists k', g', p', r'. auto.
Qed.

Lemma removed_app (a b : list event) :
  removed (a ++ b) = (removed a ++ removed b)%list.
Proof. apply flat_map_app. Qed.

Lemma removed_rmtrash_v (items : Trash) : removed (rmtrash_v items) = [].
Proof. induction items as [|[p vs] l IH]; simpl; auto. Qed.

Lemma removed_Remove (items : Trash) :
  removed (flat_map (fun '(_, vs) => map Remove vs) items) = flat_map snd items.
Proof.
  induction items as [|[p vs] l IH]; simpl; [reflexivity|].
  rewrite removed_app, IH. f_equal.
  induction vs as [|v vs IHv]; simpl in *; congruence.
Qed.

(** Printing removes nothing: the paths removed are the values of the
    dictionary. *)
Lemma removed_rmtrash (order : Trash -> Trash) (trash : Trash) (verbose : bool) :
  removed (rmtrash order trash verbose) = flat_map snd (order trash).
Proof.
  unfold rmtrash. rewrite removed_app, removed_Remove.
  destruct verbose; [now rewrite removed_rmtrash_v|reflexivity].
Qed.

(** ** One directory *)

Lemma NoDup_concat_inv {A : Type} (L : list (list A)) (g : list A) :
  NoDup (concat L) -> In g L -> NoDup g.
Proof.
  induction L as [|g0 L IH]; simpl; intros Hnd Hin; [contradiction|].
  destruct Hin as [<-|Hin].
  - now apply NoDup_app_remove_r in Hnd.
  - apply IH; [|assumption]. now apply NoDup_app_remove_l in Hnd.
Qed.

(** The identities [prune] works on are those of the package files. *)
Lemma packages_In (files : list string) (x : CygPackage) :
  In x (sort_by package (map cygpackage (filter ispackfile files))) <->
  exists f, In f files /\ ispackfile f = true /\ cygpackage f = x.
Proof.
  rewrite sort_by_In, in_map_iff. split.
  - intros [f [E Hf]]. apply filter_In in Hf. exists f. tauto.
  - intros [f [Hf [Hv E]]]. exists f. rewrite filter_In. auto.
Qed.

Lemma packages_NoDup (files : list string) :
  NoDup files ->
  NoDup (sort_by package (map cygpackage (filter ispackfile files))).
Proof.
  intros Hnd. eapply Permutation_NoDup; [symmetry; apply sort_by_perm|].
  apply NoDup_map_NoDup_ForallPairs; [|now apply NoDup_filter].
  intros f g Hf Hg E. apply filter_In in Hf as [_ Hf], Hg as [_ Hg].
  rewrite <- (ispackfile_packname f Hf), <- (ispackfile_packname g Hg). now f_equal.
Qed.

Lemma group_In (files : list string) (k : string) (g : list CygPackage) (x : CygPackage) :
  In (k, g)
     (groupby package (sort_by package (map cygpackage (filter ispackfile files)))) ->
  In x g ->
  package x = k /\ exists f, In f files /\ ispackfile f = true /\ cygpackage f = x.
Proof.
  intros Hg Hx. split; [now apply (groupby_groups _ _ _ _ Hg)|].
  apply packages_In. rewrite <- (groupby_concat package). apply in_concat.
  exists g. split; [|assumption]. apply in_map_iff. exists (k, g). auto.
Qed.

Lemma filter_length_1 {A : Type} (p : A -> bool) (l : list A) (x y : A) :
  List.length (filter p l) = 1 ->
  In x l -> p x = true -> In y l -> p y = true -> x = y.
Proof.
  intros Hlen Hx Px Hy Py.
  assert (Hx' : In x (filter p l)) by (apply filter_In; auto).
  assert (Hy' : In y (filter p l)) by (apply filter_In; auto).
  destruct (filter p l) as [|z [|? ?]]; try discriminate.
  destruct Hx' as [<-|[]], Hy' as [<-|[]]. reflexivity.
Qed.

Section Prune.

(** Any enumeration of the dictionary. *)
Variable order : Trash -> Trash.
Hypothesis order_perm : forall t, Permutation (order t) t.

Lemma order_paths (t : Trash) (path : string) :
  In path (flat_map snd (order t)) <-> In path (flat_map snd t).
Proof.
  split; apply Permutation_in, Permutation_flat_map; [|symmetry]; apply order_perm.
Qed.

(** [prune] raises nothing: no group is empty when [clean] pops it. *)
Lemma prune_total (root : string) (files : list string) (verbose : bool) :
  exists evs, prune order root files verbose = Some evs.
Proof.
  unfold prune. destruct (List.length (filter ispackfile files) =? 1)%nat; [eauto|].
  cbv zeta. unfold clean.
  destruct (clean_loop_total root
    (map snd (groupby package
       (sort_by package (map cygpackage (filter ispackfile files))))) [])
    as [t' ->]; [|eauto].
  apply Forall_forall. intros g Hg. apply in_map_iff in Hg as [[k g'] [<- Hg]].
  now apply (groupby_groups _ _ _ _ Hg).
Qed.

Lemma prune_removed_listed (root : string) (files : list string) (verbose : bool)
  (evs : list event) :
  prune order root files verbose = Some evs ->
  forall path, In path (removed evs) ->
    exists f, In f files /\ ispackfile f = true /\ path = join root f.
Proof.
  unfold prune. destruct (List.length (filter ispackfile files) =? 1)%nat.
  - intros H. injection H as <-. intros path [].
  - cbv zeta. unfold clean.
    destruct (clean_loop root _ []) as [t'|] eqn:E; [|discriminate].
    intros H. injection H as <-. intros path Hp.
    rewrite removed_rmtrash, order_paths in Hp.
    destruct (clean_loop_sound _ _ _ _ E path Hp) as [[] | [vs [v [Hvs [Hv ->]]]]].
    apply in_map_iff in Hvs as [[k g] [<- Hg]]. simpl in Hv.
    destruct (group_In _ _ _ _ Hg Hv) as [_ [f [Hf [Hpf <-]]]].
    exists f. rewrite (ispackfile_packname f Hpf). auto.
Qed.

End Prune.

(** ** The selector *)

(** C1.  For a sequence that is not empty of parsed identities of one name,
    [select] (the sort and the pop of [clean]) returns as kept an identity
    of the sequence whose key [version + "-" + release] is greatest in the
    order of strings; it is the only identity of the sequence with the
    greatest key; and kept and discarded together are the sequence, so
    every other identity is discarded.  For [("p","9","1"); ("p","10","1")]
    the identity of version "9" is kept: strings are compared, not
    numbers. *)
Theorem select_keeps_lexicographic_maximum :
  (forall (name : string) (vs : list CygPackage),
      vs <> [] ->
      (forall p, In p vs -> parsed p = true /\ package p = name) ->
      exists kept discarded,
        select vs = Some (kept, discarded)
        /\ In kept vs
        /\ (forall p, In p vs -> (vr_key p <=? vr_key kept) = true)
        /\ (forall p, In p vs ->
              (forall q, In q vs -> (vr_key q <=? vr_key p) = true) -> p = kept)
        /\ Permutation vs (kept :: discarded)
        /\ sort_by vr_key vs = (discarded ++ [kept])%list)
  /\ select [MkCygPackage "p" "9" "1"; MkCygPackage "p" "10" "1"]
     = Some (MkCygPackage "p" "9" "1", [MkCygPackage "p" "10" "1"]).
Proof.
  split; [|reflexivity].
  intros name vs Hne Hvs.
  destruct (select_spec vs Hne) as [p [r [E [Hs [Hperm Hmax]]]]].
  assert (Hp : In p vs).
  { apply (Permutation_in _ (Permutation_sym Hperm)). now left. }
  exists p, r. repeat split; auto.
  intros q Hq Hqmax.
  destruct (Hvs p Hp) as [Pp Np], (Hvs q Hq) as [Pq Nq].
  apply vr_key_inj; auto; [congruence|].
  apply String.leb_antisym; auto.
Qed.

(** ** The parser and the validators *)

(** C2.  For every name and every version and release that [chkversion]
    and [chkrelease] accept (every string of the two grammars is accepted,
    see [chkversion_spec] and [chkrelease_spec]), parsing the canonical
    file name of the identity gives the identity back; and the canonical
    file name of the sentinel is the empty string. *)
Theorem parse_packname_roundtrip (n v r : string) :
  chkversion v = true -> chkrelease r = true ->
  cygpackage (packname (MkCygPackage n v r)) = MkCygPackage n v r
  /\ packname INVALID_PACKAGE = "".
Proof. intros Hv Hr. split; [now apply cygpackage_packname | reflexivity]. Qed.

(** C3, as the code has it.  [cygpackage] returns the sentinel or an
    identity whose version passes [chkversion] and whose release passes
    [chkrelease], and whose three fields spell the input; nothing is asked
    of the name, which may be empty. *)
Theorem cygpackage_invalid_or_checked (s : string) :
  cygpackage s = INVALID_PACKAGE \/
  exists n v r,
    cygpackage s = MkCygPackage n v r
    /\ chkversion v = true /\ chkrelease r = true
    /\ s = n ++ "-" ++ v ++ "-" ++ r ++ SUFFIX.
Proof.
  destruct (cygpackage s) as [|n v r] eqn:E; [now left|].
  right. exists n, v, r. apply cygpackage_inv in E as [E [Hv Hr]]. auto.
Qed.

(** C3 as stated fails: the file name "-1-1.tar.bz2" parses to an identity
    with an empty name. *)
Lemma cygpackage_empty_name :
  cygpackage "-1-1.tar.bz2" = MkCygPackage "" "1" "1"
  /\ ~ (cygpackage "-1-1.tar.bz2" = INVALID_PACKAGE
        \/ (package (cygpackage "-1-1.tar.bz2") <> ""
            /\ chkversion (version (cygpackage "-1-1.tar.bz2")) = true
            /\ chkrelease (release (cygpackage "-1-1.tar.bz2")) = true)).
Proof.
  split; [reflexivity|]. intros [H | [H _]]; [discriminate H|]. now apply H.
Qed.

(** C4 at the failing input.  [chkversion] accepts "1" followed by a
    newline, whose second character is neither a digit nor a dot: [$]
    matches before a final newline.  A file name with that version is
    taken for a package file.  The strings of the doctests are treated as
    the claim says. *)
Theorem chkversion_trailing_newline :
  chkversion (String "1" nl) = true
  /\ version_grammar (String "1" nl) = false
  /\ cygpackage ("foo-1" ++ nl ++ "-1.tar.bz2")
     = MkCygPackage "foo" (String "1" nl) "1"
  /\ map chkversion ["4.5.3"; "20121212"; "1.3"; ".3.2"; "3.4.foo"]
     = [true; true; true; false; false].
Proof. repeat split. Qed.

(** C5 at the failing input.  [chkrelease] accepts "1" followed by a
    newline, which is not a positive decimal numeral.  A file name with
    that release is taken for a package file.  The strings of the doctests
    are treated as the claim says. *)
Theorem chkrelease_trailing_newline :
  chkrelease (String "1" nl) = true
  /\ release_grammar (String "1" nl) = false
  /\ cygpackage ("foo-1-1" ++ nl ++ ".tar.bz2")
     = MkCygPackage "foo" "1" (String "1" nl)
  /\ map chkrelease ["0"; "01"; "quux"; "1"; "7"; "100"]
     = [false; false; false; true; true; true].
Proof. repeat split. Qed.

(** C6.  A string that is not some text followed by exactly ".tar.bz2"
    parses to the sentinel. *)
Theorem cygpackage_requires_suffix (s : string) :
  (forall p, s <> p ++ ".tar.bz2") -> cygpackage s = INVALID_PACKAGE.
Proof.
  intros H. unfold cygpackage.
  destruct (PyStr.endswith s SUFFIX) eqn:E; [|reflexivity].
  apply endswith_spec in E as [p ->]. now destruct (H p).
Qed.

(** The canonical file name of what a package file parses to is the file
    name. *)
Lemma packname_cygpackage (f : string) :
  cygpackage f <> INVALID_PACKAGE -> packname (cygpackage f) = f.
Proof.
  intros H. apply ispackfile_packname. unfold ispackfile.
  destruct (cygpackage f); [congruence | reflexivity].
Qed.

(** ** Pruning a directory *)

Lemma groupby_NoDup_singletons {A : Type} (key : A -> string) (l : list A) :
  NoDup (map key l) -> map snd (groupby key l) = map (fun x => [x]) l.
Proof.
  induction l as [|x l IH]; simpl; intros Hnd; [reflexivity|].
  inversion Hnd as [|? ? Hx Hnd']; subst. specialize (IH Hnd').
  destruct l as [|y l']; [reflexivity|].
  destruct (groupby_head key y l') as [g [gs E]]. rewrite E in *.
  destruct (String.eqb_spec (key x) (key y)) as [Exy|_].
  - exfalso. apply Hx. left. now symmetry.
  - simpl in *. now rewrite IH.
Qed.

(** A group of one identity leaves the dictionary as it is. *)
Lemma clean_loop_singleton (root : string) (p : CygPackage)
  (pks : list (list CygPackage)) (t : Trash) :
  clean_loop root ([p] :: pks) t = clean_loop root pks t.
Proof. reflexivity. Qed.

Lemma clean_loop_singletons (root : string) (l : list CygPackage) (t : Trash) :
  clean_loop root (map (fun x => [x]) l) t = Some t.
Proof.
  induction l as [|x l IH]; [reflexivity|].
  simpl map. now rewrite clean_loop_singleton.
Qed.

Lemma existsb_filter_nil {A : Type} (p : A -> bool) (l : list A) :
  existsb p l = false <-> filter p l = [].
Proof.
  induction l as [|x l IH]; simpl; [tauto|].
  destruct (p x); simpl; [split; discriminate | exact IH].
Qed.

Section Directory.

(** Any enumeration of the entries of the dictionary. *)
Variable order : Trash -> Trash.
Hypothesis order_perm : forall t, Permutation (order t) t.

Lemma order_nil : order [] = [].
Proof. apply Permutation_nil. symmetry. apply order_perm. Qed.

Lemma rmtrash_nil (verbose : bool) : rmtrash order [] verbose = [].
Proof. unfold rmtrash. rewrite order_nil. now destruct verbose. Qed.

(** C7.  When at most one file name of a directory parses to an identity,
    [prune] on it prints and removes nothing, and in the walk of [forp] the
    directory could as well be absent: with no package file [ispackdir]
    keeps [prune] from being called, with one [prune] returns at once. *)
Theorem prune_skips_single_package (root : string) (dirs files : list string)
  (rest : list (string * list string * list string)) (verbose : bool) :
  List.length (filter ispackfile files) <= 1 ->
  prune order root files verbose = Some []
  /\ forp (prune order) ispackdir ((root, dirs, files) :: rest) verbose
     = forp (prune order) ispackdir rest verbose.
Proof.
  intros Hlen.
  assert (Hp : prune order root files verbose = Some []).
  { unfold prune. destruct (filter ispackfile files) as [|f [|g l]] eqn:E.
    - simpl. now rewrite rmtrash_nil.
    - reflexivity.
    - simpl in Hlen. lia. }
  split; [exact Hp|]. simpl. rewrite Hp.
  destruct (ispackdir root dirs files); [|reflexivity].
  now destruct (forp (prune order) ispackdir rest verbose).
Qed.

(** C8.  In the loop of [clean] a group of exactly one identity adds
    nothing to the dictionary.  Hence a directory in which no two package
    files have the same name, such as one with two package files of two
    names, has nothing printed and nothing removed, although [ispackdir]
    holds of it and [prune] does not return early. *)
Theorem singleton_groups_remove_nothing :
  (forall (root : string) (p : CygPackage) (pks : list (list CygPackage))
          (trash : Trash),
      clean_loop root ([p] :: pks) trash = clean_loop root pks trash)
  /\ (forall (root : string) (files : list string) (verbose : bool),
        NoDup (map (fun f => package (cygpackage f)) (filter ispackfile files)) ->
        prune order root files verbose = Some [])
  /\ (forall (root : string) (dirs files : list string),
        2 <= List.length (filter ispackfile files) ->
        ispackdir root dirs files = true).
Proof.
  split; [intros; apply clean_loop_singleton|]. split.
  - intros root files verbose Hnd. unfold prune.
    destruct (List.length (filter ispackfile files) =? 1)%nat; [reflexivity|].
    cbv zeta. unfold clean.
    rewrite groupby_NoDup_singletons, clean_loop_singletons.
    + now rewrite rmtrash_nil.
    + eapply Permutation_NoDup.
      * apply Permutation_map. symmetry. apply sort_by_perm.
      * now rewrite map_map.
  - intros root dirs files Hlen. unfold ispackdir.
    destruct (existsb ispackfile files) eqn:E; [reflexivity|].
    apply existsb_filter_nil in E. rewrite E in Hlen. simpl in Hlen. lia.
Qed.

(** C10.  The canonical file name of the identity of a package file is the
    file name itself; so every path [prune] removes is the root joined
    with a package file of the listing. *)
Theorem removed_paths_are_listed_files :
  (forall f, cygpackage f <> INVALID_PACKAGE -> packname (cygpackage f) = f)
  /\ (forall (root : string) (files : list string) (verbose : bool),
        exists evs,
          prune order root files verbose = Some evs
          /\ forall path, In path (removed evs) ->
               exists f, In f files /\ cygpackage f <> INVALID_PACKAGE
                         /\ path = join root f).
Proof.
  split; [exact packname_cygpackage|].
  intros root files verbose.
  destruct (prune_total order root files verbose) as [evs E].
  exists evs. split; [exact E|]. intros path Hp.
  destruct (prune_removed_listed order order_perm _ _ _ _ E path Hp)
    as [f [Hf [Pf ->]]].
  exists f. split; [assumption|]. split; [|reflexivity].
  unfold ispackfile in Pf. intros H. rewrite H in Pf. discriminate.
Qed.

(** C9.  In a directory (a listing without repetition, of names that do
    not begin with a slash) [prune] removes the path of a file exactly when
    the file is a package file and another package file of the listing has
    the same name and a key [version + "-" + release] that is greater in
    the order of strings.  So the file whose key is greatest among those of
    its name is not removed, every other package file of that name is, and
    a path that is removed is the path of a package file of the listing:
    files that are not package files stay. *)
Theorem prune_removes_all_but_newest (root : string) (files : list string)
  (verbose : bool) :
  NoDup files ->
  (forall f, In f files -> PyStr.startswith f "/" = false) ->
  exists evs,
    prune order root files verbose = Some evs
    /\ (forall path, In path (removed evs) ->
          exists f, In f files /\ ispackfile f = true /\ path = join root f)
    /\ (forall f, In f files ->
          (In (join root f) (removed evs) <->
           ispackfile f = true /\
           exists g, In g files /\ ispackfile g = true
                     /\ package (cygpackage g) = package (cygpackage f)
                     /\ (vr_key (cygpackage f) <? vr_key (cygpackage g)) = true)).
Proof.
  intros Hnd Hslash.
  destruct (prune_total order root files verbose) as [evs E].
  exists evs. split; [exact E|]. split.
  { exact (prune_removed_listed order order_perm _ _ _ _ E). }
  intros f Hf. revert E. unfold prune.
  destruct (List.length (filter ispackfile files) =? 1)%nat eqn:Hlen.
  - intros E. injection E as <-. simpl. split; [contradiction|].
    intros [Pf [g [Hg [Pg [_ Hlt]]]]]. apply Nat.eqb_eq in Hlen.
    rewrite (filter_length_1 ispackfile files f g Hlen) in Hlt by assumption.
    apply string_ltb_iff in Hlt as [_ Hne]. now apply Hne.
  - cbv zeta. unfold clean.
    set (S := sort_by package (map cygpackage (filter ispackfile files))).
    set (G := groupby package S).
    assert (HndG : NoDup (map fst G)).
    { apply groupby_sorted_NoDup, sort_by_sorted. }
    assert (HndS : NoDup S) by now apply packages_NoDup.
    destruct (clean_loop_spec root G [] HndG) as [t' [Et' Hpaths]].
    { intros k g Hg. apply (groupby_groups _ _ _ _ Hg). }
    { intros q []. }
    rewrite Et'. intros E. injection E as <-.
    rewrite removed_rmtrash, (order_paths order order_perm), Hpaths. split.
    + intros [[] | [k [g [p [r [HG [Esel Hin]]]]]]].
      apply in_map_iff in Hin as [v [Ev Hv]].
      assert (Hvg : In v g) by (apply (select_In _ _ _ Esel); now right).
      assert (Hpg : In p g) by (apply (select_In _ _ _ Esel); now left).
      destruct (group_In _ _ _ _ HG Hvg) as [Nv [f' [Hf' [Pf' Ef']]]].
      destruct (group_In _ _ _ _ HG Hpg) as [Np [g0 [Hg0 [Pg0 Eg0]]]].
      assert (f' = f) as ->.
      { apply (join_inj root); auto.
        rewrite <- Ev, <- Ef'. now rewrite ispackfile_packname. }
      split; [assumption|]. exists g0. rewrite Ef', Eg0.
      split; [assumption|]. split; [assumption|]. split; [congruence|].
      destruct (groupby_groups _ _ _ _ HG) as [Hne _].
      destruct (select_spec g Hne) as [p' [r' [Esel' [_ [Hperm Hmax]]]]].
      rewrite Esel in Esel'. injection Esel' as <- <-.
      apply string_ltb_iff. split; [now apply Hmax|]. intros Ekey.
      assert (Evp : v = p).
      { apply vr_key_inj; auto; try congruence.
        - rewrite <- Ef'. now apply cygpackage_parsed.
        - rewrite <- Eg0. now apply cygpackage_parsed. }
      assert (Hndg : NoDup g).
      { apply (NoDup_concat_inv (map snd G)).
        - unfold G. now rewrite groupby_concat.
        - apply in_map_iff. exists (k, g). auto. }
      apply (Permutation_NoDup Hperm) in Hndg.
      inversion Hndg as [|? ? Hnot _]. apply Hnot. now rewrite <- Evp.
    + intros [Pf [g0 [Hg0 [Pg0 [Hname Hlt]]]]]. right.
      set (v := cygpackage f) in *. set (w := cygpackage g0) in *.
      assert (Hv : In v S) by (apply packages_In; eauto).
      assert (Hw : In w S) by (apply packages_In; eauto).
      destruct (groupby_In package S v Hv) as [g [HG Hvg]].
      destruct (groupby_In package S w Hw) as [g' [HG' Hwg]].
      rewrite Hname in HG'.
      assert (g' = g) as -> by exact (NoDup_fst_functional _ _ _ _ HndG HG' HG).
      destruct (groupby_groups _ _ _ _ HG) as [Hne _].
      destruct (select_spec g Hne) as [p [r [Esel [_ [Hperm Hmax]]]]].
      exists (package v), g, p, r. split; [exact HG|]. split; [exact Esel|].
      apply in_map_iff. exists v. split.
      { unfold v. now rewrite ispackfile_packname. }
      destruct (proj1 (select_In _ _ _ Esel v) Hvg) as [Evp | Hvr]; [|assumption].
      exfalso. subst p. specialize (Hmax w Hwg).
      rewrite string_ltb_leb, Hmax in Hlt. discriminate.
Qed.

End Directory.

(** ** The theorems at concrete inputs *)

Lemma select_keeps_lexicographic_maximum_witness :
  exists kept discarded,
    select [MkCygPackage "p" "9" "1"; MkCygPackage "p" "10" "1"]
    = Some (kept, discarded)
    /\ In kept [MkCygPackage "p" "9" "1"; MkCygPackage "p" "10" "1"]
    /\ (forall p, In p [MkCygPackage "p" "9" "1"; MkCygPackage "p" "10" "1"] ->
          (vr_key p <=? vr_key kept) = true)
    /\ (forall p, In p [MkCygPackage "p" "9" "1"; MkCygPackage "p" "10" "1"] ->
          (forall q, In q [MkCygPackage "p" "9" "1"; MkCygPackage "p" "10" "1"] ->
             (vr_key q <=? vr_key p) = true) -> p = kept)
    /\ Permutation [MkCygPackage "p" "9" "1"; MkCygPackage "p" "10" "1"]
         (kept :: discarded)
    /\ sort_by vr_key [MkCygPackage "p" "9" "1"; MkCygPackage "p" "10" "1"]
       = (discarded ++ [kept])%list.
Proof.
  apply (proj1 select_keeps_lexicographic_maximum "p").
  - discriminate.
  - intros p [<- | [<- | []]]; split; reflexivity.
Defined.

Lemma parse_packname_roundtrip_witness :
  cygpackage (packname (MkCygPackage "libstdc++6" "4.5.3" "3"))
  = MkCygPackage "libstdc++6" "4.5.3" "3"
  /\ packname INVALID_PACKAGE = "".
Proof. apply parse_packname_roundtrip; reflexivity. Defined.

Lemma cygpackage_requires_suffix_witness :
  cygpackage "foo-3.2-4.tar.gz" = INVALID_PACKAGE.
Proof.
  apply cygpackage_requires_suffix. intros p E.
  assert (H : PyStr.endswith "foo-3.2-4.tar.gz" ".tar.bz2" = true).
  { apply endswith_spec. now exists p. }
  vm_compute in H. discriminate.
Defined.

Lemma prune_skips_single_package_witness :
  prune (fun t => t) "/cache" ["foo-1.0-1.tar.bz2"; "README"] true = Some []
  /\ forp (prune (fun t => t)) ispackdir
       [("/cache", ["sub"], ["foo-1.0-1.tar.bz2"; "README"]);
        ("/cache/sub", [], ["a-1-1.tar.bz2"; "a-2-1.tar.bz2"])] true
     = forp (prune (fun t => t)) ispackdir
       [("/cache/sub", [], ["a-1-1.tar.bz2"; "a-2-1.tar.bz2"])] true.
Proof.
  apply (prune_skips_single_package (fun t => t) (fun t => Permutation_refl t)).
  simpl. lia.
Defined.

Lemma singleton_groups_remove_nothing_witness :
  prune (fun t => t) "/cache" ["foo-1.0-1.tar.bz2"; "bar-2.0-1.tar.bz2"] true
  = Some []
  /\ ispackdir "/cache" [] ["foo-1.0-1.tar.bz2"; "bar-2.0-1.tar.bz2"] = true.
Proof.
  destruct (singleton_groups_remove_nothing (fun t => t)
              (fun t => Permutation_refl t)) as [_ [Hprune Hdir]].
  split.
  - apply Hprune. simpl. repeat constructor; simpl; intuition discriminate.
  - apply Hdir. simpl. lia.
Defined.

Lemma prune_removes_all_but_newest_witness :
  exists evs,
    prune (fun t => t) "/cache"
      ["libstdc++6-4.5.3-3.tar.bz2"; "libstdc++6-4.5.2-1.tar.bz2"] false
    = Some evs
    /\ (forall path, In path (removed evs) ->
          exists f,
            In f ["libstdc++6-4.5.3-3.tar.bz2"; "libstdc++6-4.5.2-1.tar.bz2"]
            /\ ispackfile f = true /\ path = join "/cache" f)
    /\ (forall f,
          In f ["libstdc++6-4.5.3-3.tar.bz2"; "libstdc++6-4.5.2-1.tar.bz2"] ->
          (In (join "/cache" f) (removed evs) <->
           ispackfile f = true /\
           exists g,
             In g ["libstdc++6-4.5.3-3.tar.bz2"; "libstdc++6-4.5.2-1.tar.bz2"]
             /\ ispackfile g = true
             /\ package (cygpackage g) = package (cygpackage f)
             /\ (vr_key (cygpackage f) <? vr_key (cygpackage g)) = true)).
Proof.
  apply (prune_removes_all_but_newest (fun t => t) (fun t => Permutation_refl t)).
  - repeat constructor; simpl; intuition discriminate.
  - intros f [<- | [<- | []]]; reflexivity.
Defined.

Lemma removed_paths_are_listed_files_witness :
  exists evs,
    prune (fun t => t) "/cache" ["a-1-1.tar.bz2"; "x.txt"; "a-2-1.tar.bz2"] false
    = Some evs
    /\ forall path, In path (removed evs) ->
         exists f, In f ["a-1-1.tar.bz2"; "x.txt"; "a-2-1.tar.bz2"]
                   /\ cygpackage f <> INVALID_PACKAGE
                   /\ path = join "/cache" f.
Proof.
  apply (proj2 (removed_paths_are_listed_files (fun t => t)
                  (fun t => Permutation_refl t))).
Defined.

(** * Further properties of the program *)

(** ** What the validators and the parser accept *)

(** X1.  [chkversion] accepts exactly the strings made of a digit followed
    by digits and dots, and those strings followed by one newline. *)
Theorem chkversion_accepts_exactly (s : string) :
  chkversion s = true <->
  exists d rest,
    Re.digit d = true /\ PyStr.all_chars Re.digit_or_dot rest = true
    /\ (s = String d rest \/ s = String d rest ++ nl).
Proof.
  rewrite chkversion_spec. split.
  - intros [H | [s0 [-> H]]].
    + destruct s as [|d rest]; [discriminate|]. simpl in H.
      apply andb_true_iff in H as [Hd Hr]. exists d, rest. auto.
    + destruct s0 as [|d rest]; [discriminate|]. simpl in H.
      apply andb_true_iff in H as [Hd Hr]. exists d, rest. auto.
  - intros [d [rest [Hd [Hr [-> | ->]]]]].
    + left. simpl. now rewrite Hd, Hr.
    + right. exists (String d rest). split; [reflexivity|]. simpl. now rewrite Hd, Hr.
Qed.

(** X2.  [chkrelease] accepts exactly the strings made of a digit from 1
    to 9 followed by digits, and those strings followed by one newline. *)
Theorem chkrelease_accepts_exactly (s : string) :
  chkrelease s = true <->
  exists d rest,
    Re.nonzero_digit d = true /\ PyStr.all_chars Re.digit rest = true
    /\ (s = String d rest \/ s = String d rest ++ nl).
Proof.
  rewrite chkrelease_spec. split.
  - intros [H | [s0 [-> H]]].
    + destruct s as [|d rest]; [discriminate|]. simpl in H.
      apply andb_true_iff in H as [Hd Hr]. exists d, rest. auto.
    + destruct s0 as [|d rest]; [discriminate|]. simpl in H.
      apply andb_true_iff in H as [Hd Hr]. exists d, rest. auto.
  - intros [d [rest [Hd [Hr [-> | ->]]]]].
    + left. simpl. now rewrite Hd, Hr.
    + right. exists (String d rest). split; [reflexivity|]. simpl. now rewrite Hd, Hr.
Qed.

(** X3.  A file name is a package file exactly when it is some name, a
    hyphen, an accepted version, a hyphen, an accepted release and the
    suffix. *)
Theorem ispackfile_iff (s : string) :
  ispackfile s = true <->
  exists n v r,
    s = n ++ "-" ++ v ++ "-" ++ r ++ SUFFIX
    /\ chkversion v = true /\ chkrelease r = true.
Proof.
  split.
  - unfold ispackfile. destruct (cygpackage s) as [|n v r] eqn:E; [discriminate|].
    intros _. exists n, v, r. now apply cygpackage_inv in E.
  - intros [n [v [r [-> [Hv Hr]]]]]. unfold ispackfile.
    change (n ++ "-" ++ v ++ "-" ++ r ++ SUFFIX) with (packname (MkCygPackage n v r)).
    now rewrite cygpackage_packname.
Qed.

Lemma stem_suffix (n v r : string) :
  n ++ "-" ++ v ++ "-" ++ r ++ SUFFIX = (n ++ String "-" (v ++ String "-" r)) ++ SUFFIX.
Proof. simpl. rewrite !append_assoc. simpl. now rewrite append_assoc. Qed.

(** X4.  The parser cuts at the last two hyphens: the version and the
    release it returns hold no hyphen, and whenever the name of a package
    file is written as three fields of which the last two hold no hyphen,
    those are the fields of the identity; all other hyphens belong to the
    name. *)
Theorem cygpackage_cuts_last_two_hyphens (s n v r : string) :
  cygpackage s = MkCygPackage n v r ->
  PyStr.contains "-" v = false /\ PyStr.contains "-" r = false
  /\ forall n' v' r',
       s = n' ++ "-" ++ v' ++ "-" ++ r' ++ SUFFIX ->
       PyStr.contains "-" v' = false -> PyStr.contains "-" r' = false ->
       n' = n /\ v' = v /\ r' = r.
Proof.
  intros E. apply cygpackage_inv in E as [E [Hv Hr]].
  pose proof (chkversion_no_hyphen v Hv) as Nv.
  pose proof (chkrelease_no_hyphen r Hr) as Nr.
  split; [assumption|]. split; [assumption|].
  intros n' v' r' E' Nv' Nr'.
  assert (E2 : (n ++ String "-" (v ++ String "-" r)) ++ SUFFIX
               = (n' ++ String "-" (v' ++ String "-" r')) ++ SUFFIX).
  { rewrite <- !stem_suffix. transitivity s; [symmetry; exact E | exact E']. }
  apply append_inv_tail in E2.
  pose proof (rsplit2_build "-" n v r Nv Nr) as H.
  rewrite E2, (rsplit2_build "-" n' v' r' Nv' Nr') in H.
  injection H as -> -> ->. auto.
Qed.

(** X5.  A name whose part before the suffix holds no hyphen, or one
    hyphen only, is not a package file, whatever its fields look like:
    [chkpackage] wants three parts. *)
Theorem cygpackage_needs_two_hyphens (a b : string) :
  PyStr.contains "-" a = false -> PyStr.contains "-" b = false ->
  cygpackage (a ++ SUFFIX) = INVALID_PACKAGE
  /\ cygpackage (a ++ "-" ++ b ++ SUFFIX) = INVALID_PACKAGE.
Proof.
  intros Ha Hb. split.
  - unfold cygpackage.
    destruct (PyStr.endswith (a ++ SUFFIX) SUFFIX); [|reflexivity].
    simpl negb. cbv beta iota zeta. rewrite slice_to_suffix.
    simpl PyStr.rsplit. apply rpartition_none in Ha. rewrite Ha. reflexivity.
  - replace (a ++ "-" ++ b ++ SUFFIX) with ((a ++ String "-" b) ++ SUFFIX)
      by (rewrite append_assoc; reflexivity).
    unfold cygpackage.
    destruct (PyStr.endswith ((a ++ String "-" b) ++ SUFFIX) SUFFIX); [|reflexivity].
    simpl negb. cbv beta iota zeta. rewrite slice_to_suffix.
    simpl PyStr.rsplit. rewrite (rpartition_app "-" a b Hb).
    apply rpartition_none in Ha. rewrite Ha. reflexivity.
Qed.

(** ** The dictionary [clean] builds *)




Lemma dict_set_In (k k' : CygPackage) (v v' : list string) (d : Trash) :
  In (k', v') (dict_set k v d) -> (k' = k /\ v' = v) \/ In (k', v') d.
Proof.
  induction d as [|[k0 v0] d IH]; simpl.
  - intros [H | []]. inversion H. auto.
  - destruct (CygPackage_eq_dec k k0) as [->|_]; simpl.
    + intros [H | H]; [inversion H|]; auto.
    + intros [H | H]; [auto|]. destruct (IH H); auto.
Qed.

Lemma dict_set_keys (k : CygPackage) (v : list string) (d : Trash) :
  map fst (dict_set k v d)
  = if in_dec CygPackage_eq_dec k (map fst d) then map fst d
    else (map fst d ++ [k])%list.
Proof.
  induction d as [|[k0 v0] d IH]; simpl; [reflexivity|].
  destruct (CygPackage_eq_dec k k0) as [->|Hne]; simpl.
  - destruct (CygPackage_eq_dec k0 k0); [reflexivity | congruence].
  - destruct (CygPackage_eq_dec k0 k) as [E|Hne']; [congruence|].
    rewrite IH. now destruct (in_dec CygPackage_eq_dec k (map fst d)).
Qed.

Lemma dict_set_NoDup (k : CygPackage) (v : list string) (d : Trash) :
  NoDup (map fst d) -> NoDup (map fst (dict_set k v d)).
Proof.
  intros H. rewrite dict_set_keys.
  destruct (in_dec CygPackage_eq_dec k (map fst d)) as [_|Hk]; [assumption|].
  apply NoDup_app; [assumption | repeat constructor; intros [] |].
  intros a Ha [<- | []]. contradiction.
Qed.

Lemma clean_loop_entries (root : string) (pks : list (list CygPackage)) (t t' : Trash) :
  clean_loop root pks t = Some t' ->
  (NoDup (map fst t) -> NoDup (map fst t'))
  /\ forall p paths, In (p, paths) t' ->
       In (p, paths) t \/
       (paths <> [] /\
        exists vs r, In vs pks /\ select vs = Some (p, r)
                     /\ paths = map (fun v => join root (packname v)) r).
Proof.
  revert t; induction pks as [|vs pks IH]; simpl; intros t H.
  - injection H as <-. auto.
  - destruct (select vs) as [[p r]|] eqn:E; [|discriminate].
    destruct (IH _ H) as [Hnd Hent]. split.
    + intros Ht. apply Hnd. destruct r; [assumption | now apply dict_set_NoDup].
    + intros q paths Hq. destruct (Hent q paths Hq) as [Hin | [Hne [vs' [r' [Hvs' H']]]]].
      * destruct r as [|x r]; [now left|].
        apply dict_set_In in Hin as [[-> ->] | Hin]; [|now left].
        right. split; [discriminate|]. exists vs, (x :: r). auto.
      * right. split; [assumption|]. exists vs', r'. tauto.
Qed.

Lemma clean_entries_of (root : string) (pks : list (list CygPackage)) (trash : Trash) :
  clean root pks = Some trash ->
  NoDup (map fst trash)
  /\ forall p paths, In (p, paths) trash ->
       paths <> [] /\
       exists vs r, In vs pks /\ select vs = Some (p, r)
                    /\ paths = map (fun v => join root (packname v)) r.
Proof.
  intros H. destruct (clean_loop_entries root pks [] trash H) as [Hnd Hent].
  split; [apply Hnd; constructor|].
  intros p paths Hp. destruct (Hent p paths Hp) as [[] | H']. exact H'.
Qed.

(** X7.  In the dictionary [clean] returns no identity is filed twice, and
    every entry is the identity kept from one of the groups with the paths
    of all that the group leaves after the pop, of which there is at least
    one: no entry has an empty list of paths. *)
Theorem clean_entries (root : string) (pks : list (list CygPackage)) (trash : Trash) :
  clean root pks = Some trash ->
  NoDup (map fst trash)
  /\ forall p paths, In (p, paths) trash ->
       paths <> [] /\
       exists vs r, In vs pks /\ select vs = Some (p, r)
                    /\ paths = map (fun v => join root (packname v)) r.
Proof. apply clean_entries_of. Qed.

(** ** What [rmtrash] does with it *)

Lemma rmtrash_v_prints (items : Trash) (e : event) :
  In e (rmtrash_v items) -> exists text, e = Print text.
Proof.
  unfold rmtrash_v. rewrite in_flat_map. intros [[p vs] [_ H]].
  destruct H as [<- | [<- | []]]; eauto.
Qed.

Lemma removes_map_removed (items : Trash) :
  flat_map (fun '(_, vs) => map Remove vs) items
  = map Remove (removed (flat_map (fun '(_, vs) => map Remove vs) items)).
Proof.
  rewrite removed_Remove.
  induction items as [|[p vs] l IH]; simpl; [reflexivity|].
  now rewrite map_app, <- IH.
Qed.

(** X8.  The verbose run of [prune] is the quiet run preceded by a report
    that only prints: both remove the same paths in the same order, and the
    quiet run prints nothing. *)
Theorem verbose_only_adds_report (order : Trash -> Trash) (root : string)
  (files : list string) (loud quiet : list event) :
  prune order root files true = Some loud ->
  prune order root files false = Some quiet ->
  (exists report,
      loud = (report ++ quiet)%list
      /\ forall e, In e report -> exists text, e = Print text)
  /\ quiet = map Remove (removed quiet)
  /\ removed loud = removed quiet.
Proof.
  unfold prune. destruct (List.length (filter ispackfile files) =? 1)%nat.
  - intros H1 H2. injection H1 as <-. injection H2 as <-.
    split; [exists []; split; [reflexivity | intros e []]|]. auto.
  - cbv zeta. destruct (clean root _) as [t|]; [|discriminate].
    intros H1 H2. injection H1 as <-. injection H2 as <-.
    unfold rmtrash. simpl app. split; [|split].
    + exists (rmtrash_v (order t)). split; [reflexivity|]. apply rmtrash_v_prints.
    + apply removes_map_removed.
    + now rewrite removed_app, removed_rmtrash_v.
Qed.

(** ** More about one directory *)

Section Survivors.

Variable order : Trash -> Trash.
Hypothesis order_perm : forall t, Permutation (order t) t.

(** Which files of a listing [prune] removes. *)
Lemma prune_removed_iff (root : string) (files : list string) (verbose : bool)
  (evs : list event) :
  NoDup files ->
  (forall f, In f files -> PyStr.startswith f "/" = false) ->
  prune order root files verbose = Some evs ->
  forall f, In f files ->
    (In (join root f) (removed evs) <->
     ispackfile f = true /\
     exists g, In g files /\ ispackfile g = true
               /\ package (cygpackage g) = package (cygpackage f)
               /\ (vr_key (cygpackage f) <? vr_key (cygpackage g)) = true).
Proof.
  intros Hnd Hslash E f Hf. revert E. unfold prune.
  destruct (List.length (filter ispackfile files) =? 1)%nat eqn:Hlen.
  - intros E. injection E as <-. simpl. split; [contradiction|].
    intros [Pf [g [Hg [Pg [_ Hlt]]]]]. apply Nat.eqb_eq in Hlen.
    rewrite (filter_length_1 ispackfile files f g Hlen) in Hlt by assumption.
    apply string_ltb_iff in Hlt as [_ Hne]. now apply Hne.
  - cbv zeta. unfold clean.
    set (S := sort_by package (map cygpackage (filter ispackfile files))).
    set (G := groupby package S).
    assert (HndG : NoDup (map fst G)).
    { apply groupby_sorted_NoDup, sort_by_sorted. }
    assert (HndS : NoDup S) by now apply packages_NoDup.
    destruct (clean_loop_spec root G [] HndG) as [t' [Et' Hpaths]].
    { intros k g Hg. apply (groupby_groups _ _ _ _ Hg). }
    { intros q []. }
    rewrite Et'. intros E. injection E as <-.
    rewrite removed_rmtrash, (order_paths order order_perm), Hpaths. split.
    + intros [[] | [k [g [p [r [HG [Esel Hin]]]]]]].
      apply in_map_iff in Hin as [v [Ev Hv]].
      assert (Hvg : In v g) by (apply (select_In _ _ _ Esel); now right).
      assert (Hpg : In p g) by (apply (select_In _ _ _ Esel); now left).
      destruct (group_In _ _ _ _ HG Hvg) as [Nv [f' [Hf' [Pf' Ef']]]].
      destruct (group_In _ _ _ _ HG Hpg) as [Np [g0 [Hg0 [Pg0 Eg0]]]].
      assert (f' = f) as ->.
      { apply (join_inj root); auto.
        rewrite <- Ev, <- Ef'. now rewrite ispackfile_packname. }
      split; [assumption|]. exists g0. rewrite Ef', Eg0.
      split; [assumption|]. split; [assumption|]. split; [congruence|].
      destruct (groupby_groups _ _ _ _ HG) as [Hne _].
      destruct (select_spec g Hne) as [p' [r' [Esel' [_ [Hperm Hmax]]]]].
      rewrite Esel in Esel'. injection Esel' as <- <-.
      apply string_ltb_iff. split; [now apply Hmax|]. intros Ekey.
      assert (Evp : v = p).
      { apply vr_key_inj; auto; try congruence.
        - rewrite <- Ef'. now apply cygpackage_parsed.
        - rewrite <- Eg0. now apply cygpackage_parsed. }
      assert (Hndg : NoDup g).
      { apply (NoDup_concat_inv (map snd G)).
        - unfold G. now rewrite groupby_concat.
        - apply in_map_iff. exists (k, g). auto. }
      apply (Permutation_NoDup Hperm) in Hndg.
      inversion Hndg as [|? ? Hnot _]. apply Hnot. now rewrite <- Evp.
    + intros [Pf [g0 [Hg0 [Pg0 [Hname Hlt]]]]]. right.
      set (v := cygpackage f) in *. set (w := cygpackage g0) in *.
      assert (Hv : In v S) by (apply packages_In; eauto).
      assert (Hw : In w S) by (apply packages_In; eauto).
      destruct (groupby_In package S v Hv) as [g [HG Hvg]].
      destruct (groupby_In package S w Hw) as [g' [HG' Hwg]].
      rewrite Hname in HG'.
      assert (g' = g) as -> by exact (NoDup_fst_functional _ _ _ _ HndG HG' HG).
      destruct (groupby_groups _ _ _ _ HG) as [Hne _].
      destruct (select_spec g Hne) as [p [r [Esel [_ [Hperm Hmax]]]]].
      exists (package v), g, p, r. split; [exact HG|]. split; [exact Esel|].
      apply in_map_iff. exists v. split.
      { unfold v. now rewrite ispackfile_packname. }
      destruct (proj1 (select_In _ _ _ Esel v) Hvg) as [Evp | Hvr]; [|assumption].
      exfalso. subst p. specialize (Hmax w Hwg).
      rewrite string_ltb_leb, Hmax in Hlt. discriminate.
Qed.

Lemma NoDup_app_disjoint {A : Type} (l1 l2 : list A) (a : A) :
  NoDup (l1 ++ l2) -> In a l1 -> ~ In a l2.
Proof.
  induction l1 as [|x l1 IH]; simpl; intros Hnd Hin; [contradiction|].
  inversion Hnd as [|? ? Hx Hnd']; subst. destruct Hin as [<- | Hin].
  - intros H. apply Hx, in_or_app. now right.
  - now apply IH.
Qed.

Lemma nodup_length_perm (l l' : list string) :
  Permutation l l' ->
  List.length (nodup string_dec l) = List.length (nodup string_dec l').
Proof.
  intros H. apply Permutation_length, NoDup_Permutation; try apply NoDup_nodup.
  intros x. rewrite !nodup_In. split; apply Permutation_in; [|symmetry]; exact H.
Qed.

(** After a sort there are as many groups as there are keys. *)
Lemma groupby_length {A : Type} (key : A -> string) (l : list A) :
  StronglySorted (key_le key) l ->
  List.length (groupby key l) = List.length (nodup string_dec (map key l)).
Proof.
  intros Hs. rewrite <- (length_map fst).
  apply Permutation_length, NoDup_Permutation.
  - now apply groupby_sorted_NoDup.
  - apply NoDup_nodup.
  - intros k. rewrite nodup_In. split.
    + intros H. apply groupby_key_In in H as [y [Hy <-]]. now apply in_map.
    + intros H. apply in_map_iff in H as [y [<- Hy]].
      destruct (groupby_In key l y Hy) as [g [Hg _]].
      apply in_map_iff. exists (key y, g). auto.
Qed.

(** The loop of [clean] over groups of different names, with the list of
    the identities whose paths it files. *)
Lemma clean_loop_discards (root : string) (G : list (string * list CygPackage))
  (t : Trash) :
  NoDup (map fst G) ->
  (forall k g, In (k, g) G -> g <> [] /\ forall x, In x g -> package x = k) ->
  (forall q, In q (map fst t) -> ~ In (package q) (map fst G)) ->
  exists t' D,
    clean_loop root (map snd G) t = Some t'
    /\ flat_map snd t'
       = (flat_map snd t ++ map (fun v => join root (packname v)) D)%list
    /\ List.length D + List.length G = List.length (concat (map snd G))
    /\ (forall x, In x D -> In x (concat (map snd G)))
    /\ (NoDup (concat (map snd G)) -> NoDup D).
Proof.
  revert t; induction G as [|[k g] G IH]; simpl; intros t Hnd Hg Ht.
  - exists t, []. simpl. rewrite app_nil_r. repeat split; auto using NoDup_nil.
  - inversion Hnd as [|? ? Hk Hnd']; subst.
    destruct (Hg k g (or_introl eq_refl)) as [Hne Hname].
    destruct (select_spec g Hne) as [p [r [E [_ [Hperm _]]]]]. rewrite E.
    assert (Hp : package p = k).
    { apply Hname. apply (Permutation_in _ (Permutation_sym Hperm)). now left. }
    set (t1 := match r with
               | [] => t
               | _ :: _ => dict_set p (map (fun v => join root (packname v)) r) t
               end).
    assert (Hfresh : ~ In p (map fst t)).
    { intros Hin. apply (Ht p Hin). left. now symmetry. }
    assert (Ht1 : flat_map snd t1
                  = (flat_map snd t ++ map (fun v => join root (packname v)) r)%list).
    { subst t1. destruct r as [|x r]; [simpl; now rewrite app_nil_r|].
      rewrite dict_set_fresh by assumption.
      rewrite flat_map_app. simpl flat_map. now rewrite app_nil_r. }
    assert (Hk1 : forall q, In q (map fst t1) -> ~ In (package q) (map fst G)).
    { intros q Hq. subst t1. destruct r as [|x r].
      - intros Hin. apply (Ht q Hq). now right.
      - rewrite dict_set_fresh in Hq by assumption.
        rewrite map_app, in_app_iff in Hq. destruct Hq as [Hq | [<- | []]].
        + intros Hin. apply (Ht q Hq). now right.
        + simpl. now rewrite Hp. }
    destruct (IH t1 Hnd' (fun k' g' H => Hg k' g' (or_intror H)) Hk1)
      as [t' [D [Et' [Hpaths [Hlen [Hin HndD]]]]]].
    exists t', (r ++ D)%list. split; [exact Et'|].
    assert (Hr : forall x, In x r -> In x g).
    { intros x Hx. apply (Permutation_in _ (Permutation_sym Hperm)). now right. }
    split; [|split; [|split]].
    + now rewrite Hpaths, Ht1, map_app, app_assoc.
    + apply Permutation_length in Hperm. simpl in Hperm.
      rewrite !length_app. lia.
    + intros x Hx. apply in_or_app. apply in_app_or in Hx as [Hx | Hx]; auto.
    + intros Hall. apply NoDup_app.
      * pose proof (NoDup_app_remove_r _ _ Hall) as Hgn.
        apply (Permutation_NoDup Hperm) in Hgn. now inversion Hgn.
      * apply HndD. now apply NoDup_app_remove_l in Hall.
      * intros a Ha HaD. apply (NoDup_app_disjoint _ _ a Hall); auto.
Qed.

(** The identities whose files a run of [prune] removes. *)
Lemma prune_discards (root : string) (files : list string) (verbose : bool)
  (evs : list event) :
  prune order root files verbose = Some evs ->
  exists D,
    Permutation (removed evs) (map (fun v => join root (packname v)) D)
    /\ List.length D
       + List.length (nodup string_dec
           (map (fun f => package (cygpackage f)) (filter ispackfile files)))
       = List.length (filter ispackfile files)
    /\ (forall x, In x D ->
          exists f, In f files /\ ispackfile f = true /\ cygpackage f = x)
    /\ (NoDup files -> NoDup D).
Proof.
  unfold prune. destruct (List.length (filter ispackfile files) =? 1)%nat eqn:Hlen.
  - intros E. injection E as <-. exists []. simpl. split; [constructor|].
    split; [|split; [intros x [] | constructor]].
    apply Nat.eqb_eq in Hlen.
    destruct (filter ispackfile files) as [|f [|? ?]]; try discriminate. reflexivity.
  - cbv zeta. unfold clean.
    set (S := sort_by package (map cygpackage (filter ispackfile files))).
    set (G := groupby package S).
    assert (HndG : NoDup (map fst G)).
    { apply groupby_sorted_NoDup, sort_by_sorted. }
    destruct (clean_loop_discards root G [] HndG)
      as [t' [D [Et' [Hpaths [HlenD [Hin HndD]]]]]].
    { intros k g Hg. apply (groupby_groups _ _ _ _ Hg). }
    { intros q []. }
    rewrite Et'. intros E. injection E as <-. exists D.
    subst G S. rewrite groupby_concat in Hin, HndD, HlenD.
    split; [|split; [|split]].
    + simpl in Hpaths. rewrite removed_rmtrash, <- Hpaths.
      apply Permutation_flat_map, order_perm.
    + rewrite groupby_length in HlenD by apply sort_by_sorted.
      rewrite (nodup_length_perm _ _
                 (Permutation_map package (sort_by_perm package _))) in HlenD.
      rewrite map_map in HlenD. rewrite HlenD.
      rewrite (Permutation_length (sort_by_perm package _)). apply length_map.
    + intros x Hx. apply packages_In. now apply Hin.
    + intros Hnd. apply HndD. now apply packages_NoDup.
Qed.

Lemma slashfree_path_inj (root : string) (files : list string) (x y : CygPackage) :
  (forall f, In f files -> PyStr.startswith f "/" = false) ->
  (exists f, In f files /\ ispackfile f = true /\ cygpackage f = x) ->
  (exists f, In f files /\ ispackfile f = true /\ cygpackage f = y) ->
  join root (packname x) = join root (packname y) -> x = y.
Proof.
  intros Hslash [f [Hf [Pf <-]]] [g [Hg [Pg <-]]].
  rewrite !ispackfile_packname by assumption.
  intros E. apply join_inj in E; auto. now subst.
Qed.

Lemma prune_removed_NoDup (root : string) (files : list string) (verbose : bool)
  (evs : list event) :
  NoDup files ->
  (forall f, In f files -> PyStr.startswith f "/" = false) ->
  prune order root files verbose = Some evs ->
  NoDup (removed evs).
Proof.
  intros Hnd Hslash E.
  destruct (prune_discards root files verbose evs E) as [D [Hperm [_ [HD HndD]]]].
  apply (Permutation_NoDup (Permutation_sym Hperm)).
  apply NoDup_map_NoDup_ForallPairs; [|auto].
  intros x y Hx Hy. apply (slashfree_path_inj root files); auto.
Qed.

(** When nothing is removed nothing is printed either: no entry of the
    dictionary has an empty list of paths. *)
Lemma prune_nothing_removed (root : string) (files : list string) (verbose : bool)
  (evs : list event) :
  prune order root files verbose = Some evs -> removed evs = [] -> evs = [].
Proof.
  unfold prune. destruct (List.length (filter ispackfile files) =? 1)%nat.
  - intros E _. now injection E as <-.
  - cbv zeta. destruct (clean root _) as [t|] eqn:Ec; [|discriminate].
    intros E. injection E as <-. rewrite removed_rmtrash. intros Hr.
    assert (Ho : order t = []).
    { destruct (order t) as [|[p paths] l] eqn:Eo; [reflexivity|]. exfalso.
      simpl in Hr. apply app_eq_nil in Hr as [Hp _]. subst paths.
      destruct (clean_entries_of _ _ _ Ec) as [_ Hent].
      destruct (Hent p []) as [Hne _]; [|now apply Hne].
      apply (Permutation_in _ (order_perm t)). rewrite Eo. now left. }
    unfold rmtrash. rewrite Ho. now destruct verbose.
Qed.

(** X9.  In a directory (a listing without repetition, of names that do
    not begin with a slash) [prune] removes no path twice, so that no
    [os.remove] is asked for a file an earlier one has removed. *)
Theorem prune_removes_no_path_twice (root : string) (files : list string)
  (verbose : bool) (evs : list event) :
  NoDup files ->
  (forall f, In f files -> PyStr.startswith f "/" = false) ->
  prune order root files verbose = Some evs ->
  NoDup (removed evs).
Proof. apply prune_removed_NoDup. Qed.


(** X11.  In a directory every package file has a package file of its
    name, with a key at least as great, that [prune] does not remove: no
    package loses all its files. *)
Theorem prune_keeps_a_file_of_each_name (root : string) (files : list string)
  (verbose : bool) (evs : list event) :
  NoDup files ->
  (forall f, In f files -> PyStr.startswith f "/" = false) ->
  prune order root files verbose = Some evs ->
  forall f, In f files -> ispackfile f = true ->
    exists g,
      In g files /\ ispackfile g = true
      /\ package (cygpackage g) = package (cygpackage f)
      /\ (vr_key (cygpackage f) <=? vr_key (cygpackage g)) = true
      /\ ~ In (join root g) (removed evs).
Proof.
  intros Hnd Hslash E f Hf Pf.
  set (same := fun g => ispackfile g
                        && (package (cygpackage g) =? package (cygpackage f))).
  assert (Hsame : forall g, In g (filter same files) <->
            In g files /\ ispackfile g = true
            /\ package (cygpackage g) = package (cygpackage f)).
  { intros g. rewrite filter_In. unfold same.
    rewrite andb_true_iff, String.eqb_eq. tauto. }
  assert (Hne : filter same files <> []).
  { intros H. assert (Hin : In f (filter same files)) by (apply Hsame; auto).
    rewrite H in Hin. exact Hin. }
  destruct (pop_sort_by (fun g => vr_key (cygpackage g)) _ Hne)
    as [m [r [_ [_ [Hperm Hmax]]]]].
  assert (Hm : In m (filter same files)).
  { apply (Permutation_in _ (Permutation_sym Hperm)). now left. }
  destruct (proj1 (Hsame m) Hm) as [Hmf [Pm Nm]].
  exists m. repeat split; auto.
  - apply Hmax. apply Hsame. auto.
  - intros Hrem.
    apply (prune_removed_iff root files verbose evs Hnd Hslash E m Hmf) in Hrem
      as [_ [h [Hh [Ph [Nh Hlt]]]]].
    assert (Hle : (vr_key (cygpackage h) <=? vr_key (cygpackage m)) = true).
    { apply Hmax. apply Hsame. repeat split; auto. congruence. }
    rewrite string_ltb_leb, Hle in Hlt. discriminate.
Qed.

(** X12.  Pruning again what a run of [prune] has left of a directory
    prints and removes nothing. *)
Theorem prune_again_does_nothing (root : string) (files files' : list string)
  (verbose verbose' : bool) (evs : list event) :
  NoDup files ->
  (forall f, In f files -> PyStr.startswith f "/" = false) ->
  prune order root files verbose = Some evs ->
  NoDup files' ->
  (forall f, In f files' <-> In f files /\ ~ In (join root f) (removed evs)) ->
  prune order root files' verbose' = Some [].
Proof.
  intros Hnd Hslash E Hnd' Hleft.
  destruct (prune_total order root files' verbose') as [evs' E'].
  rewrite E'. f_equal. apply (prune_nothing_removed _ _ _ _ E').
  assert (Hslash' : forall f, In f files' -> PyStr.startswith f "/" = false).
  { intros f Hf. apply Hslash. now apply Hleft. }
  destruct (removed evs') as [|path l] eqn:Er; [reflexivity|]. exfalso.
  assert (Hp : In path (removed evs')) by (rewrite Er; now left).
  destruct (prune_removed_listed order order_perm _ _ _ _ E' path Hp)
    as [f [Hf [Pf ->]]].
  apply (prune_removed_iff root files' verbose' evs' Hnd' Hslash' E' f Hf) in Hp
    as [_ [g [Hg [Pg [Ng Hlt]]]]].
  apply Hleft in Hf as [Hf Hkept], Hg as [Hg _].
  apply Hkept.
  apply (prune_removed_iff root files verbose evs Hnd Hslash E f Hf). eauto 6.
Qed.

End Survivors.

(** ** Listings, enumerations and walks *)

(** X13.  What [prune] removes from a directory depends neither on the
    order in which the directory is listed, nor on the order in which the
    dictionary is enumerated, nor on the verbose flag: two runs remove the
    same paths, each once. *)
Theorem prune_any_order_same_removals (order1 order2 : Trash -> Trash)
  (root : string) (files files' : list string) (verbose1 verbose2 : bool)
  (evs1 evs2 : list event) :
  (forall t, Permutation (order1 t) t) ->
  (forall t, Permutation (order2 t) t) ->
  NoDup files ->
  (forall f, In f files -> PyStr.startswith f "/" = false) ->
  Permutation files files' ->
  prune order1 root files verbose1 = Some evs1 ->
  prune order2 root files' verbose2 = Some evs2 ->
  Permutation (removed evs1) (removed evs2).
Proof.
  intros Ho1 Ho2 Hnd Hslash Hperm E1 E2.
  assert (Hnd' : NoDup files') by exact (Permutation_NoDup Hperm Hnd).
  assert (Hin : forall f, In f files <-> In f files').
  { intros f. split; apply Permutation_in; [|symmetry]; exact Hperm. }
  assert (Hslash' : forall f, In f files' -> PyStr.startswith f "/" = false).
  { intros f Hf. apply Hslash. now apply Hin. }
  apply NoDup_Permutation.
  - exact (prune_removed_NoDup order1 Ho1 _ _ _ _ Hnd Hslash E1).
  - exact (prune_removed_NoDup order2 Ho2 _ _ _ _ Hnd' Hslash' E2).
  - intros path. split; intros Hp.
    + destruct (prune_removed_listed order1 Ho1 _ _ _ _ E1 path Hp)
        as [f [Hf [Pf ->]]].
      apply (prune_removed_iff order1 Ho1 _ _ _ _ Hnd Hslash E1 f Hf) in Hp
        as [_ [g [Hg H]]].
      apply (prune_removed_iff order2 Ho2 _ _ _ _ Hnd' Hslash' E2 f);
        [now apply Hin|]. split; [assumption|]. exists g. split; [now apply Hin|].
      exact H.
    + destruct (prune_removed_listed order2 Ho2 _ _ _ _ E2 path Hp)
        as [f [Hf [Pf ->]]].
      apply (prune_removed_iff order2 Ho2 _ _ _ _ Hnd' Hslash' E2 f Hf) in Hp
        as [_ [g [Hg H]]].
      apply (prune_removed_iff order1 Ho1 _ _ _ _ Hnd Hslash E1 f);
        [now apply Hin|]. split; [assumption|]. exists g. split; [now apply Hin|].
      exact H.
Qed.


(** X15.  [forp] over two walks in a row does the first and then, unless
    the function raised in the first, the second; after a raise nothing
    more is done. *)
Theorem forp_app (f : string -> list string -> bool -> option (list event))
  (pred : string -> list string -> list string -> bool)
  (w1 w2 : list (string * list string * list string)) (verbose : bool) :
  forp f pred (w1 ++ w2) verbose
  = (let (e1, ok1) := forp f pred w1 verbose in
     if ok1
     then let (e2, ok2) := forp f pred w2 verbose in ((e1 ++ e2)%list, ok2)
     else (e1, false)).
Proof.
  induction w1 as [|[[root dirs] files] w1 IH]; simpl.
  - now destruct (forp f pred w2 verbose).
  - destruct (pred root dirs files); [|exact IH].
    destruct (f root files verbose) as [ev|]; [|reflexivity].
    rewrite IH. destruct (forp f pred w1 verbose) as [e1 [|]].
    + destruct (forp f pred w2 verbose) as [e2 ok2]. now rewrite app_assoc.
    + reflexivity.
Qed.

Lemma prune_at_most_one (order : Trash -> Trash) (root : string)
  (files : list string) (verbose : bool) :
  (forall t, Permutation (order t) t) ->
  List.length (filter ispackfile files) <= 1 ->
  prune order root files verbose = Some [].
Proof.
  intros Ho Hlen. unfold prune.
  destruct (filter ispackfile files) as [|f [|g l]] eqn:E.
  - simpl. now rewrite (rmtrash_nil order Ho).
  - reflexivity.
  - simpl in Hlen. lia.
Qed.

(** X16.  Only the directories with two package files or more count in a
    walk: [forp] with [prune] does the same on the walk and on the walk
    without the other directories, wherever they stand. *)
Theorem forp_only_directories_with_two_packages (order : Trash -> Trash)
  (walk : list (string * list string * list string)) (verbose : bool) :
  (forall t, Permutation (order t) t) ->
  forp (prune order) ispackdir walk verbose
  = forp (prune order) ispackdir
      (filter (fun d => 2 <=? List.length (filter ispackfile (snd d)))%nat walk)
      verbose.
Proof.
  intros Ho. induction walk as [|[[root dirs] files] rest IH]; [reflexivity|].
  cbn [filter snd].
  destruct (2 <=? List.length (filter ispackfile files))%nat eqn:E.
  - cbn [forp]. now rewrite IH.
  - apply Nat.leb_gt in E. rewrite <- IH. cbn [forp].
    rewrite (prune_at_most_one order root files verbose Ho) by lia.
    destruct (ispackdir root dirs files); [|reflexivity].
    now destruct (forp (prune order) ispackdir rest verbose).
Qed.

(** ** The further properties at concrete inputs *)

Lemma cygpackage_cuts_last_two_hyphens_witness :
  PyStr.contains "-" "4.5.3" = false /\ PyStr.contains "-" "3" = false
  /\ forall n' v' r',
       "gcc4-core-4.5.3-3.tar.bz2" = n' ++ "-" ++ v' ++ "-" ++ r' ++ SUFFIX ->
       PyStr.contains "-" v' = false -> PyStr.contains "-" r' = false ->
       n' = "gcc4-core" /\ v' = "4.5.3" /\ r' = "3".
Proof.
  apply (cygpackage_cuts_last_two_hyphens "gcc4-core-4.5.3-3.tar.bz2"). reflexivity.
Defined.

Lemma cygpackage_needs_two_hyphens_witness :
  cygpackage ("foobar" ++ SUFFIX) = INVALID_PACKAGE
  /\ cygpackage ("foo" ++ "-" ++ "3.2" ++ SUFFIX) = INVALID_PACKAGE.
Proof.
  split.
  - apply (cygpackage_needs_two_hyphens "foobar" ""); reflexivity.
  - apply (cygpackage_needs_two_hyphens "foo" "3.2"); reflexivity.
Defined.

Lemma clean_entries_witness :
  NoDup (map fst [(MkCygPackage "a" "2" "1", ["/c/a-1-1.tar.bz2"])])
  /\ forall p paths,
       In (p, paths) [(MkCygPackage "a" "2" "1", ["/c/a-1-1.tar.bz2"])] ->
       paths <> [] /\
       exists vs r,
         In vs [[MkCygPackage "a" "1" "1"; MkCygPackage "a" "2" "1"];
                [MkCygPackage "b" "1" "1"]]
         /\ select vs = Some (p, r)
         /\ paths = map (fun v => join "/c" (packname v)) r.
Proof.
  apply (clean_entries "/c"
           [[MkCygPackage "a" "1" "1"; MkCygPackage "a" "2" "1"];
            [MkCygPackage "b" "1" "1"]]).
  reflexivity.
Defined.

Lemma verbose_only_adds_report_witness :
  (exists report,
      [Print "Latest version of a is 2-1"; Print ("/c/a-1-1.tar.bz2" ++ nl);
       Remove "/c/a-1-1.tar.bz2"]
      = (report ++ [Remove "/c/a-1-1.tar.bz2"])%list
      /\ forall e, In e report -> exists text, e = Print text)
  /\ [Remove "/c/a-1-1.tar.bz2"]
     = map Remove (removed [Remove "/c/a-1-1.tar.bz2"])
  /\ removed [Print "Latest version of a is 2-1"; Print ("/c/a-1-1.tar.bz2" ++ nl);
              Remove "/c/a-1-1.tar.bz2"]
     = removed [Remove "/c/a-1-1.tar.bz2"].
Proof.
  apply (verbose_only_adds_report (fun t => t) "/c"
           ["a-1-1.tar.bz2"; "x.txt"; "a-2-1.tar.bz2"; "b-1-1.tar.bz2"]);
    reflexivity.
Defined.

Lemma prune_removes_no_path_twice_witness :
  NoDup (removed [Remove "/c/a-1-1.tar.bz2"]).
Proof.
  apply (prune_removes_no_path_twice (fun t => t) (fun t => Permutation_refl t)
           "/c" ["a-1-1.tar.bz2"; "x.txt"; "a-2-1.tar.bz2"; "b-1-1.tar.bz2"] false).
  - repeat constructor; simpl; intuition discriminate.
  - intros f [<- | [<- | [<- | [<- | []]]]]; reflexivity.
  - reflexivity.
Defined.


Lemma prune_keeps_a_file_of_each_name_witness :
  exists g,
    In g ["a-1-1.tar.bz2"; "x.txt"; "a-2-1.tar.bz2"; "b-1-1.tar.bz2"]
    /\ ispackfile g = true
    /\ package (cygpackage g) = package (cygpackage "a-1-1.tar.bz2")
    /\ (vr_key (cygpackage "a-1-1.tar.bz2") <=? vr_key (cygpackage g)) = true
    /\ ~ In (join "/c" g) (removed [Remove "/c/a-1-1.tar.bz2"]).
Proof.
  apply (prune_keeps_a_file_of_each_name (fun t => t) (fun t => Permutation_refl t)
           "/c" ["a-1-1.tar.bz2"; "x.txt"; "a-2-1.tar.bz2"; "b-1-1.tar.bz2"] false).
  - repeat constructor; simpl; intuition discriminate.
  - intros f [<- | [<- | [<- | [<- | []]]]]; reflexivity.
  - reflexivity.
  - simpl. auto.
  - reflexivity.
Defined.

Lemma prune_again_does_nothing_witness :
  prune (fun t => t) "/c" ["x.txt"; "a-2-1.tar.bz2"; "b-1-1.tar.bz2"] true = Some [].
Proof.
  apply (prune_again_does_nothing (fun t => t) (fun t => Permutation_refl t)
           "/c" ["a-1-1.tar.bz2"; "x.txt"; "a-2-1.tar.bz2"; "b-1-1.tar.bz2"]
           ["x.txt"; "a-2-1.tar.bz2"; "b-1-1.tar.bz2"] false true
           [Remove "/c/a-1-1.tar.bz2"]).
  - repeat constructor; simpl; intuition discriminate.
  - intros f [<- | [<- | [<- | [<- | []]]]]; reflexivity.
  - reflexivity.
  - repeat constructor; simpl; intuition discriminate.
  - intros f. simpl. split.
    + intros [<- | [<- | [<- | []]]]; (split; [auto|]);
        vm_compute; intuition discriminate.
    + intros [[<- | [<- | [<- | [<- | []]]]] Hn]; auto.
      exfalso. apply Hn. vm_compute. auto.
Defined.

Lemma prune_any_order_same_removals_witness :
  Permutation (removed [Remove "/c/a-1-1.tar.bz2"])
    (removed [Print "Latest version of a is 2-1"; Print ("/c/a-1-1.tar.bz2" ++ nl);
              Remove "/c/a-1-1.tar.bz2"]).
Proof.
  apply (prune_any_order_same_removals (fun t => t) (@rev _) "/c"
           ["a-1-1.tar.bz2"; "x.txt"; "a-2-1.tar.bz2"; "b-1-1.tar.bz2"]
           ["b-1-1.tar.bz2"; "a-2-1.tar.bz2"; "x.txt"; "a-1-1.tar.bz2"]
           false true).
  - intros t. apply Permutation_refl.
  - intros t. symmetry. apply Permutation_rev.
  - repeat constructor; simpl; intuition discriminate.
  - intros f [<- | [<- | [<- | [<- | []]]]]; reflexivity.
  - change ["b-1-1.tar.bz2"; "a-2-1.tar.bz2"; "x.txt"; "a-1-1.tar.bz2"]
      with (rev ["a-1-1.tar.bz2"; "x.txt"; "a-2-1.tar.bz2"; "b-1-1.tar.bz2"]).
    apply Permutation_rev.
  - reflexivity.
  - reflexivity.
Defined.


Lemma forp_only_directories_with_two_packages_witness :
  forp (prune (fun t => t)) ispackdir
    [("/c", ["d"], ["a-1-1.tar.bz2"; "a-2-1.tar.bz2"]);
     ("/c/d", [], ["b-1-1.tar.bz2"])] true
  = forp (prune (fun t => t)) ispackdir
      (filter (fun d => 2 <=? List.length (filter ispackfile (snd d)))%nat
         [("/c", ["d"], ["a-1-1.tar.bz2"; "a-2-1.tar.bz2"]);
          ("/c/d", [], ["b-1-1.tar.bz2"])]) true.
Proof.
  apply (forp_only_directories_with_two_packages (fun t => t)).
  intros t. apply Permutation_refl.
Defined.
